(** * djedi-react: the [Djedi] client of [src/djedi-react/src/djedi.js]

    A shallow embedding of the class [Djedi]: the node cache, the batch
    queue with its debounce timer, the rendered-node registry and the
    [window.DJEDI_NODES] mirror.  The event loop is made explicit: pending
    timers and in-flight requests are part of the state, and a trace records
    every network request, callback invocation and console warning. *)

From Stdlib Require Import ZArith Lia.
From stdpp Require Import base option strings list gmap pretty.

Set Warnings "-register-all".

Open Scope string_scope.
Open Scope list_scope.
Open Scope Z_scope.

(** ** JavaScript values that occur in nodes

    [Node.value] is [string | undefined]; JSON responses add [null]. *)

Inductive Value :=
  | VUndefined
  | VNull
  | VStr (s : string).

#[global] Instance Value_eq_dec : EqDecision Value.
Proof. solve_decision. Defined.

(** [v == null] *)
Definition isNullish (v : Value) : bool :=
  match v with
  | VUndefined | VNull => true
  | VStr _ => false
  end.

(** Truthiness, as used by [a || b]. *)
Definition truthy (v : Value) : bool :=
  match v with
  | VUndefined | VNull => false
  | VStr s => negb (bool_decide (s = ""))
  end.

(** [type Node = { uri: string, value: string | undefined }] *)
Record Node := mkNode { uri : string; value : Value }.

#[global] Instance Node_eq_dec : EqDecision Node.
Proof. solve_decision. Defined.

(** ** JavaScript [Map]: insertion-ordered association list

    [same] is the key comparison of [Map] (SameValueZero): string keys are
    compared by content, object keys by identity. *)

Section JsMap.
Context {K V : Type} (same : K -> K -> bool).

Fixpoint jsmap_get (k : K) (m : list (K * V)) : option V :=
  match m with
  | [] => None
  | (k', v) :: m' => if same k k' then Some v else jsmap_get k m'
  end.

(** [Map.prototype.set]: an existing key keeps its position. *)
Fixpoint jsmap_set (k : K) (v : V) (m : list (K * V)) : list (K * V) :=
  match m with
  | [] => [(k, v)]
  | (k', v') :: m' =>
      if same k k' then (k', v) :: m' else (k', v') :: jsmap_set k v m'
  end.

Fixpoint jsmap_delete (k : K) (m : list (K * V)) : list (K * V) :=
  match m with
  | [] => []
  | (k', v') :: m' =>
      if same k k' then m' else (k', v') :: jsmap_delete k m'
  end.
End JsMap.

Definition sameString (a b : string) : bool := bool_decide (a = b).

(** ** The [./uri] module

    [djedi.js] imports [parseUri], [applyUriDefaults] and [stringifyUri]
    from [./uri].  The class is embedded over any implementation of that
    interface. *)

Record Separators := mkSeparators {
  sep_scheme : string;
  sep_namespace : string;
  sep_path : string;
  sep_ext : string;
  sep_version : string
}.

(** A URI object; [None] is an unset ([undefined]) field, [Some ""] an
    explicitly empty one. *)
Record UriObject := mkUri {
  scheme : option string;
  namespace : option string;
  path : option string;
  ext : option string;
  version : option string
}.

Record UriDefaults := mkDefaults {
  def_scheme : string;
  def_namespace : string;
  def_path : string;
  def_ext : string;
  def_version : string
}.

Class UriModule := {
  parseUri : string -> Separators -> UriObject;
  applyUriDefaults :
    UriObject -> UriDefaults -> list (string * string) -> UriObject;
  stringifyUri : UriObject -> Separators -> string
}.

(** [{ ...uriObject, version: "" }] *)
Definition with_version (v : string) (u : UriObject) : UriObject :=
  {| scheme := scheme u; namespace := namespace u; path := path u;
     ext := ext u; version := Some v |}.

(** [{ ...uriObject, scheme: "", ext: "", version: "" }] *)
Definition with_scheme_ext_version (s e v : string) (u : UriObject)
  : UriObject :=
  {| scheme := Some s; namespace := namespace u; path := path u;
     ext := Some e; version := Some v |}.

Module Uri.

(** Does [p] start [s]? *)
Fixpoint starts_with (p s : string) : bool :=
  match p, s with
  | "", _ => true
  | String a p', String b s' => bool_decide (a = b) && starts_with p' s'
  | String _ _, "" => false
  end.

Fixpoint drop_chars (n : nat) (s : string) : string :=
  match n, s with
  | O, _ => s
  | S n', String _ s' => drop_chars n' s'
  | S _, "" => ""
  end.

(** Split [s] around the first occurrence of [sep]. *)
Fixpoint partition (sep s : string) : option (string * string) :=
  if starts_with sep s then Some ("", drop_chars (String.length sep) s)
  else
    match s with
    | "" => None
    | String c s' =>
        match partition sep s' with
        | Some (a, b) => Some (String c a, b)
        | None => None
        end
    end.

(** Modelled from the spec: [parseUri] of [./uri] is not among the
    sources.  The spec gives the serialized shape
    [scheme://namespace@path.ext#version] with configurable separators and
    says the string is parsed "using configured separators into the five
    fields", an empty string being "a valid explicit value distinct from
    unset".  The string is read left to right: a field is set exactly when
    its separator is found, and the path is the text left between the
    namespace and the extension. *)
Definition parseUri (s : string) (seps : Separators) : UriObject :=
  let '(sch, rest) :=
    match partition (sep_scheme seps) s with
    | Some (a, b) => (Some a, b)
    | None => (None, s)
    end in
  let '(ns, rest) :=
    match partition (sep_namespace seps) rest with
    | Some (a, b) => (Some a, b)
    | None => (None, rest)
    end in
  let '(p, e, v) :=
    match partition (sep_ext seps) rest with
    | Some (a, b) =>
        match partition (sep_version seps) b with
        | Some (e, v) => (a, Some e, Some v)
        | None => (a, Some b, None)
        end
    | None =>
        match partition (sep_version seps) rest with
        | Some (a, v) => (a, None, Some v)
        | None => (rest, None, None)
        end
    end in
  {| scheme := sch; namespace := ns; path := Some p; ext := e;
     version := v |}.

(** [namespaceByScheme[scheme]] *)
Definition namespace_of (sch : string) (byScheme : list (string * string))
  : option string :=
  jsmap_get sameString sch byScheme.

(** Modelled from the spec: [applyUriDefaults] of [./uri] is not among the
    sources.  "Any unset field takes the configured default; if namespace
    is unset, take the configured default namespace for that field's scheme
    instead of the generic default." *)
Definition applyUriDefaults (u : UriObject) (d : UriDefaults)
    (byScheme : list (string * string)) : UriObject :=
  let sch := default (def_scheme d) (scheme u) in
  let ns :=
    match namespace u with
    | Some n => n
    | None => default (def_namespace d) (namespace_of sch byScheme)
    end in
  {| scheme := Some sch;
     namespace := Some ns;
     path := Some (default (def_path d) (path u));
     ext := Some (default (def_ext d) (ext u));
     version := Some (default (def_version d) (version u)) |}.

Definition field (f : option string) : string := default "" f.

(** Modelled from the spec: [stringifyUri] of [./uri] is not among the
    sources.  "Serialization is a pure function of the five fields and the
    separator configuration", of shape
    [scheme://namespace@path.ext#version]. *)
Definition stringifyUri (u : UriObject) (seps : Separators) : string :=
  field (scheme u) +:+ sep_scheme seps +:+
  field (namespace u) +:+ sep_namespace seps +:+
  field (path u) +:+ sep_ext seps +:+
  field (ext u) +:+ sep_version seps +:+
  field (version u).

End Uri.

(** The implementation of the [./uri] interface given by the model above. *)
Definition specUri : UriModule :=
  {| parseUri := Uri.parseUri;
     applyUriDefaults := Uri.applyUriDefaults;
     stringifyUri := Uri.stringifyUri |}.

(** ** Errors *)

(** What [String(error)] shows of the error [_post] started from. *)
Inductive Cause :=
  | StatusCodeError (got : Z)   (* createStatusCodeError(response) *)
  | JsonError                   (* response.json() rejected *)
  | BadError.                   (* new Error(`Bad error: ${arg}`) *)

(** Request payloads, before and after [JSON.stringify]. *)
Inductive Json :=
  | JNull
  | JString (s : string)
  | JArray (items : list Json)
  | JObject (members : list (string * Json)).

Inductive PostData :=
  | DataNodes (nodes : list Node)               (* [node] *)
  | DataMapping (nodes : list (string * Value)) (* { uri: default } *)
  | DataPrefixes (prefixes : list string).

(** The message templates, field by field. *)
Inductive Message :=
  | MissingResult (uri : string)
      (* `Missing result for node: ${uri}` *)
  | ApiError (method apiUrl : string) (data : PostData)
      (response : option (Z * string)) (cause : Cause).
      (* createUpdatedErrorMessage(error, info, response) *)

(** An [Error] object; [err_obj] is its identity. *)
Record Error := mkError {
  err_obj : nat;
  message : Message;
  status : Z;
  responseText : option string
}.

(** [missingUriError(uri)], allocated at address [obj]. *)
Definition missingUriError (obj : nat) (u : string) : Error :=
  {| err_obj := obj; message := MissingResult u; status := 1404;
     responseText := None |}.

(** ** [JSON.stringify]

    A property whose value is [undefined] is left out of an object. *)

Definition json_of_value (v : Value) : option Json :=
  match v with
  | VUndefined => None
  | VNull => Some JNull
  | VStr s => Some (JString s)
  end.

Definition json_members (l : list (string * Value)) : list (string * Json) :=
  omap (fun '(k, v) => match json_of_value v with
                       | Some j => Some (k, j)
                       | None => None
                       end) l.

Definition json_of_node (n : Node) : Json :=
  JObject (json_members [("uri", VStr (uri n)); ("value", value n)]).

Definition JSON_stringify (d : PostData) : Json :=
  match d with
  | DataNodes nodes => JArray (map json_of_node nodes)
  | DataMapping nodes => JObject (json_members nodes)
  | DataPrefixes prefixes => JArray (map JString prefixes)
  end.

(** The keys of a JSON object (none for other documents). *)
Definition json_keys (j : Json) : list string :=
  match j with
  | JObject members => map fst members
  | _ => []
  end.

(** ** Options *)

Inductive RenderState :=
  | Loading
  | Failed (error : Error)
  | Success (content : string)
  | Missing.

Record UriOptions := mkUriOptions {
  defaults : UriDefaults;
  namespaceByScheme : list (string * string);
  separators : Separators
}.

Record Options := mkOptions {
  baseUrl : string;
  batchInterval : Z;
  defaultRender : RenderState -> option string;
  uri_options : UriOptions
}.

Definition makeDefaultOptions : Options :=
  {| baseUrl := "";
     batchInterval := 50;
     defaultRender := fun state =>
       match state with
       | Loading => Some "Loading…"
       | Failed error =>
           Some ("Failed to fetch content 😞 (" +:+ pretty (status error) +:+ ")")
       | Success content => Some content
       | Missing => None
       end;
     uri_options :=
       {| defaults :=
            {| def_scheme := "i18n"; def_namespace := ""; def_path := "";
               def_ext := "txt"; def_version := "" |};
          namespaceByScheme :=
            [("i18n", "en-us"); ("l10n", "local"); ("g11n", "global")];
          separators :=
            {| sep_scheme := "://"; sep_namespace := "@"; sep_path := "/";
               sep_ext := "."; sep_version := "#" |} |} |}.

(** ** The state of a client and of its surroundings *)

(** Callbacks are opaque to the client; they are known by identity. *)
Definition Callback := nat.
Bind Scope nat_scope with Callback.

(** What a callback is invoked with. *)
Inductive Payload :=
  | PNode (n : Node)     (* a node object [{ uri, value }] *)
  | PValue (v : Value)   (* a bare value of the result mapping *)
  | PError (e : Error).

(** An entry of the batch queue: [{ node, callbacks }]. *)
Record QueueEntry := mkEntry { q_node : Node; callbacks : list Callback }.

(** [{ timeoutId, queue }] *)
Record Batch := mkBatch {
  timeoutId : option nat;
  queue : list (string * QueueEntry)
}.

(** An entry of the rendered-node registry: [{ value, numInstances }]. *)
Record Rendered := mkRendered { r_value : Value; numInstances : Z }.

(** Keys of the [_renderedNodes] map: strings, or object literals known by
    their address. *)
Inductive MapKey :=
  | KStr (s : string)
  | KObj (addr : nat) (literal : Rendered).

Definition sameKey (a b : MapKey) : bool :=
  match a, b with
  | KStr s, KStr t => bool_decide (s = t)
  | KObj i _, KObj j _ => bool_decide (i = j)
  | _, _ => false
  end.

(** The handlers attached with [.then] to the promise of a load. *)
Inductive Handlers :=
  | ThenGet (u : string) (callback : Callback)      (* in [get] *)
  | ThenFlush (queue : list (string * QueueEntry))  (* in [_flushBatch] *)
  | ThenCaller.   (* [loadMany] / [loadByPrefix] called from outside *)

(** A request awaiting its response: the [info] of [_post] and the handlers
    that run when it settles. *)
Record Request := mkRequest {
  apiUrl : string;
  data : PostData;
  handlers : Handlers
}.

Inductive Event :=
  | EvFetch (req : nat) (url : string) (body : Json)
      (* unfetch(url, { method: "POST", body }) *)
  | EvCall (callback : Callback) (p : Payload)
  | EvWarn (u : string) (prev next : Value)
  | EvLog (msg : string).

Record State := mkState {
  (* fields of the instance *)
  options : Options;
  _nodes : gmap string Node;
  _renderedNodes : list (MapKey * option Rendered);
  _batch : Batch;
  _DJEDI_NODES : nat;                  (* address of a plain object *)
  (* surroundings *)
  window : option (option nat);        (* [window.DJEDI_NODES], if any *)
  heap : gmap nat (gmap string Value); (* plain objects, by address *)
  timers : gmap nat Z;                 (* pending [setTimeout]s, with delay *)
  inflight : gmap nat Request;         (* requests not yet settled *)
  fresh : nat;                         (* next unused address / id *)
  trace : list Event
}.

Definition set_options (o : Options) (s : State) : State :=
  mkState o (_nodes s) (_renderedNodes s) (_batch s) (_DJEDI_NODES s)
    (window s) (heap s) (timers s) (inflight s) (fresh s) (trace s).

Definition set_nodes (m : gmap string Node) (s : State) : State :=
  mkState (options s) m (_renderedNodes s) (_batch s) (_DJEDI_NODES s)
    (window s) (heap s) (timers s) (inflight s) (fresh s) (trace s).

Definition set_renderedNodes (m : list (MapKey * option Rendered))
    (s : State) : State :=
  mkState (options s) (_nodes s) m (_batch s) (_DJEDI_NODES s)
    (window s) (heap s) (timers s) (inflight s) (fresh s) (trace s).

Definition set_batch (b : Batch) (s : State) : State :=
  mkState (options s) (_nodes s) (_renderedNodes s) b (_DJEDI_NODES s)
    (window s) (heap s) (timers s) (inflight s) (fresh s) (trace s).

Definition set_DJEDI_NODES (a : nat) (s : State) : State :=
  mkState (options s) (_nodes s) (_renderedNodes s) (_batch s) a
    (window s) (heap s) (timers s) (inflight s) (fresh s) (trace s).

Definition set_window (w : option (option nat)) (s : State) : State :=
  mkState (options s) (_nodes s) (_renderedNodes s) (_batch s)
    (_DJEDI_NODES s) w (heap s) (timers s) (inflight s) (fresh s) (trace s).

Definition set_heap (h : gmap nat (gmap string Value)) (s : State) : State :=
  mkState (options s) (_nodes s) (_renderedNodes s) (_batch s)
    (_DJEDI_NODES s) (window s) h (timers s) (inflight s) (fresh s) (trace s).

Definition set_timers (t : gmap nat Z) (s : State) : State :=
  mkState (options s) (_nodes s) (_renderedNodes s) (_batch s)
    (_DJEDI_NODES s) (window s) (heap s) t (inflight s) (fresh s) (trace s).

Definition set_inflight (r : gmap nat Request) (s : State) : State :=
  mkState (options s) (_nodes s) (_renderedNodes s) (_batch s)
    (_DJEDI_NODES s) (window s) (heap s) (timers s) r (fresh s) (trace s).

Definition set_fresh (n : nat) (s : State) : State :=
  mkState (options s) (_nodes s) (_renderedNodes s) (_batch s)
    (_DJEDI_NODES s) (window s) (heap s) (timers s) (inflight s) n (trace s).

Definition set_trace (t : list Event) (s : State) : State :=
  mkState (options s) (_nodes s) (_renderedNodes s) (_batch s)
    (_DJEDI_NODES s) (window s) (heap s) (timers s) (inflight s) (fresh s) t.

(** Record an event. *)
Definition emit (e : Event) (s : State) : State :=
  set_trace (trace s ++ [e]) s.

(** Take the next unused address. *)
Definition alloc (s : State) : nat * State :=
  (fresh s, set_fresh (S (fresh s)) s).

(** [callback(p)] *)
Definition call (p : Payload) (s : State) (callback : Callback) : State :=
  emit (EvCall callback p) s.

(** [{}] at a new address. *)
Definition newObject (s : State) : nat * State :=
  let '(a, s) := alloc s in
  (a, set_heap (<[a := ∅]> (heap s)) s).

(** [obj[key] = v] for the plain object at address [a]. *)
Definition setProperty (a : nat) (key : string) (v : Value) (s : State)
  : State :=
  set_heap (alter (insert key v) a (heap s)) s.

(** [delete obj[key]] *)
Definition deleteProperty (a : nat) (key : string) (s : State) : State :=
  set_heap (alter (delete key) a (heap s)) s.

(** [results[uri]] for a mapping received as JSON: the own property of
    that name, [undefined] when there is none.  (Names inherited from
    [Object.prototype] are not URIs and are left out.) *)
Definition property (key : string) (obj : list (string * Value)) : Value :=
  default VUndefined (jsmap_get sameString key obj).

(** [makeEmptyBatch()] *)
Definition makeEmptyBatch : Batch := {| timeoutId := None; queue := [] |}.

(** What the world outside reads: [window.DJEDI_NODES] where there is a
    window, the instance's own object otherwise. *)
Definition visibleNodes (s : State) : gmap string Value :=
  let a := match window s with
           | Some (Some a) => a
           | _ => _DJEDI_NODES s
           end in
  default ∅ (heap s !! a).

(** ** Responses

    A response that parses as JSON is taken to be what the endpoints
    document: a mapping from URIs to strings or [null]. *)

Record Response := mkResponse {
  resp_status : Z;
  statusText : string;
  resp_text : option string;  (* [response.text()]; [None] when it rejects *)
  resp_json : option (list (string * Value))
                              (* [response.json()]; [None] when it rejects *)
}.

(** How [unfetch] settles. *)
Inductive FetchOutcome :=
  | Rejected                       (* no response at all *)
  | Responded (response : Response).

(** The promise returned by [_post], settled: the parsed mapping, or the
    one error object (allocated at [obj]) it rejects with. *)
Definition postResult (obj : nat) (req : Request) (o : FetchOutcome)
  : list (string * Value) + Error :=
  match o with
  | Rejected =>
      inr {| err_obj := obj;
             message := ApiError "POST" (apiUrl req) (data req) None BadError;
             status := -1;
             responseText := Some "" |}
  | Responded response =>
      let shown := Some (resp_status response, statusText response) in
      if (200 <=? resp_status response) && (resp_status response <? 400)
      then
        match resp_json response with
        | Some results => inl results
        | None =>
            (* the body was used by [json()] *)
            inr {| err_obj := obj;
                   message :=
                     ApiError "POST" (apiUrl req) (data req) shown JsonError;
                   status := resp_status response;
                   responseText := Some "" |}
        end
      else
        inr {| err_obj := obj;
               message :=
                 ApiError "POST" (apiUrl req) (data req) shown
                   (StatusCodeError (resp_status response));
               status := resp_status response;
               responseText := Some (default "" (resp_text response)) |}
  end.

(** Whether the page runs with a [window], and what [window.DJEDI_NODES]
    holds before the client is constructed. *)
Inductive Surroundings :=
  | NoWindow
  | Window (nodes : option (gmap string Value)).

(** ** The class *)

Section Djedi.
Context {U : UriModule}.

Definition _parseUri (s : State) (u : string) : UriObject :=
  let o := uri_options (options s) in
  applyUriDefaults (parseUri u (separators o)) (defaults o)
    (namespaceByScheme o).

Definition _stringifyUri (s : State) (uriObject : UriObject) : string :=
  stringifyUri uriObject (separators (uri_options (options s))).

Definition _normalizeUri (s : State) (u : string) : string :=
  _stringifyUri s (_parseUri s u).

Definition _normalizeNode (s : State) (node : Node) : Node :=
  {| uri := _stringifyUri s (_parseUri s (uri node));
     value := value node |}.

Definition _djediNodesUri (s : State) (u : string) : string :=
  _stringifyUri s (with_version "" (_parseUri s u)).

Definition constructor (env : Surroundings) : State :=
  let s0 :=
    {| options := makeDefaultOptions;
       _nodes := ∅;
       _renderedNodes := [];
       _batch := makeEmptyBatch;
       _DJEDI_NODES := 0;
       window := match env with
                 | NoWindow => None
                 | Window None => Some None
                 | Window (Some _) => Some (Some 0%nat)
                 end;
       heap := match env with
               | Window (Some nodes) => {[ 0%nat := nodes ]}
               | _ => ∅
               end;
       timers := ∅;
       inflight := ∅;
       fresh := match env with Window (Some _) => 1 | _ => 0 end;
       trace := [] |} in
  let '(a, s) := newObject s0 in
  let s := set_DJEDI_NODES a s in
  match window s with
  | None => s
  | Some w =>
      let '(w, s) :=
        match w with
        | Some b => (b, s)
        | None =>
            let '(b, s) := newObject s in
            (b, set_window (Some (Some b)) s)
        end in
      set_DJEDI_NODES w s
  end.

Definition _post (passedUrl : string) (d : PostData) (h : Handlers)
    (s : State) : State :=
  let url := baseUrl (options s) +:+ passedUrl in
  let '(r, s) := alloc s in
  let s := emit (EvFetch r url (JSON_stringify d)) s in
  set_inflight
    (<[r := {| apiUrl := passedUrl; data := d; handlers := h |}]>
       (inflight s)) s.

Definition loadMany (d : PostData) (h : Handlers) (s : State) : State :=
  _post "/djedi/load_many" d h s.

Definition loadByPrefix (prefixes : list string) (s : State) : State :=
  _post "/djedi/load_by_prefix" (DataPrefixes prefixes) ThenCaller s.

Definition addNodes (nodes : list (string * Value)) (s : State) : State :=
  foldl (fun s '(u, v) =>
           let node := _normalizeNode s {| uri := u; value := v |} in
           set_nodes (<[uri node := node]> (_nodes s)) s)
        s nodes.

Definition get (passedNode : Node) (callback : Callback) (s : State)
  : State :=
  let node := _normalizeNode s passedNode in
  match _nodes s !! uri node with
  | Some existingNode => call (PNode existingNode) s callback
  | None => loadMany (DataNodes [node]) (ThenGet (uri node) callback) s
  end.

Definition getBatched (passedNode : Node) (callback : Callback)
    (s : State) : State :=
  if batchInterval (options s) <=? 0 then get passedNode callback s
  else
    let node := _normalizeNode s passedNode in
    match _nodes s !! uri node with
    | Some existingNode => call (PNode existingNode) s callback
    | None =>
        let previous :=
          default {| q_node := node; callbacks := [] |}
            (jsmap_get sameString (uri node) (queue (_batch s))) in
        let previous :=
          {| q_node := q_node previous;
             callbacks := callbacks previous ++ [callback] |} in
        let s :=
          set_batch
            {| timeoutId := timeoutId (_batch s);
               queue := jsmap_set sameString (uri node) previous
                          (queue (_batch s)) |} s in
        match timeoutId (_batch s) with
        | Some _ => s
        | None =>
            let '(t, s) := alloc s in
            let s :=
              set_timers (<[t := batchInterval (options s)]> (timers s)) s in
            set_batch {| timeoutId := Some t; queue := queue (_batch s) |} s
        end
    end.

Definition _flushBatch (s : State) : State :=
  let q := queue (_batch s) in
  let nodes := map (fun '(u, d) => (u, value (q_node d))) q in
  let s := set_batch makeEmptyBatch s in
  loadMany (DataMapping nodes) (ThenFlush q) s.

Definition injectAdmin (s : State) : State :=
  emit (EvLog "TODO: injectAdmin (maybe)") s.

Definition reportRenderedNode (passedNode : Node) (s : State) : State :=
  let node := _normalizeNode s passedNode in
  match mjoin (jsmap_get sameKey (KStr (uri node)) (_renderedNodes s)) with
  | Some previous =>
      let s :=
        if bool_decide (r_value previous ≠ value node)
        then emit (EvWarn (uri node) (r_value previous) (value node)) s
        else s in
      set_renderedNodes
        (jsmap_set sameKey (KStr (uri node))
           (Some {| r_value := r_value previous;
                    numInstances := numInstances previous + 1 |})
           (_renderedNodes s)) s
  | None =>
      (* this._renderedNodes.set({ value, numInstances: 1 }): the object
         literal is the key, the value is undefined *)
      let '(a, s) := alloc s in
      let literal := {| r_value := value node; numInstances := 1 |} in
      let s :=
        set_renderedNodes
          (jsmap_set sameKey (KObj a literal) None (_renderedNodes s)) s in
      setProperty (_DJEDI_NODES s) (_djediNodesUri s (uri node))
        (value node) s
  end.

Definition reportRemovedNode (passedUri : string) (s : State) : State :=
  let u := _normalizeUri s passedUri in
  match mjoin (jsmap_get sameKey (KStr u) (_renderedNodes s)) with
  | None => s
  | Some previous =>
      let previous :=
        {| r_value := r_value previous;
           numInstances := numInstances previous - 1 |} in
      let s :=
        set_renderedNodes
          (jsmap_set sameKey (KStr u) (Some previous) (_renderedNodes s))
          s in
      if numInstances previous <=? 0 then
        let s :=
          set_renderedNodes
            (jsmap_delete sameKey (KStr u) (_renderedNodes s)) s in
        deleteProperty (_DJEDI_NODES s) (_djediNodesUri s u) s
      else s
  end.

Definition resetOptions (s : State) : State :=
  set_options makeDefaultOptions s.

Definition resetNodes (s : State) : State :=
  let s :=
    match timeoutId (_batch s) with
    | Some t => set_timers (delete t (timers s)) s   (* clearTimeout *)
    | None => s
    end in
  let s := set_nodes ∅ s in
  let s := set_renderedNodes [] s in
  let s := set_batch makeEmptyBatch s in
  let '(a, s) := newObject s in
  let s := set_DJEDI_NODES a s in
  match window s with
  | Some _ => set_window (Some (Some (_DJEDI_NODES s))) s
  | None => s
  end.

Definition element (s : State) (u : string) : string * string * string :=
  let uriObject := _parseUri s u in
  ("span", "data-i18n",
   _stringifyUri s (with_scheme_ext_version "" "" "" uriObject)).

(** *** The event loop *)

(** Invoke every callback of a queue entry with the same payload. *)
Definition deliver (p : Payload) (cbs : list Callback) (s : State)
  : State :=
  foldl (call p) s cbs.

(** The fulfilment handlers. *)
Definition onResults (h : Handlers) (results : list (string * Value))
    (s : State) : State :=
  match h with
  | ThenGet u callback =>
      (* callback(results[uri] || missingUriError(uri)) *)
      let v := property u results in
      if truthy v then call (PValue v) s callback
      else
        let '(a, s) := alloc s in
        call (PError (missingUriError a u)) s callback
  | ThenFlush q =>
      foldl (fun s '(u, d) =>
               let v := property u results in
               if isNullish v then
                 let '(a, s) := alloc s in
                 deliver (PError (missingUriError a u)) (callbacks d) s
               else
                 deliver (PNode {| uri := u; value := v |}) (callbacks d) s)
            s q
  | ThenCaller => s
  end.

(** The rejection handlers. *)
Definition onError (h : Handlers) (error : Error) (s : State) : State :=
  match h with
  | ThenGet _ callback => call (PError error) s callback
  | ThenFlush q =>
      foldl (fun s '(_, d) => deliver (PError error) (callbacks d) s) s q
  | ThenCaller => s
  end.

(** The request [r] settles with outcome [o]. *)
Definition settle (r : nat) (o : FetchOutcome) (s : State) : State :=
  match inflight s !! r with
  | None => s
  | Some req =>
      let s := set_inflight (delete r (inflight s)) s in
      let '(a, s') := alloc s in
      match postResult a req o with
      | inl results => onResults (handlers req) results (addNodes results s)
      | inr error => onError (handlers req) error s'
      end
  end.

(** The timer [t] fires: [_flushBatch] was bound to it. *)
Definition fire (t : nat) (s : State) : State :=
  match timers s !! t with
  | None => s
  | Some _ => _flushBatch (set_timers (delete t (timers s)) s)
  end.

End Djedi.

(** ** Vocabulary of the statements *)

(** The events by which one error reaches every callback of a queue. *)
Definition errorCalls (e : Error) (q : list (string * QueueEntry))
  : list Event :=
  flat_map (fun '(_, d) => map (fun cb => EvCall cb (PError e)) (callbacks d))
    q.

(** The request that [_flushBatch] issues from the state [s]. *)
Definition flushRequest (s : State) : Request :=
  {| apiUrl := "/djedi/load_many";
     data := DataMapping
               (map (fun '(u, d) => (u, value (q_node d))) (queue (_batch s)));
     handlers := ThenFlush (queue (_batch s)) |}.

(** The callbacks a request's handlers hold. *)
Definition handlerCallbacks (h : Handlers) : list Callback :=
  match h with
  | ThenGet _ callback => [callback]
  | ThenFlush q => flat_map (fun '(_, d) => callbacks d) q
  | ThenCaller => []
  end.

(** The payload a batched callback for [u] receives from [results]; a
    missing-URI error is allocated at [a]. *)
Definition batchPayload (a : nat) (u : string)
    (results : list (string * Value)) : Payload :=
  let v := property u results in
  if isNullish v then PError (missingUriError a u)
  else PNode {| uri := u; value := v |}.

(** A registry none of whose keys is a string: no URI is tracked. *)
Definition isObjectKey (k : MapKey) : bool :=
  match k with
  | KObj _ _ => true
  | KStr _ => false
  end.

Definition onlyObjectKeys (m : list (MapKey * option Rendered)) : bool :=
  forallb (fun kv => isObjectKey (fst kv)) m.

(** What can happen to a client: a call of its interface, an assignment to
    its options, or an event of the loop. *)
Inductive Action :=
  | Get (node : Node) (callback : Callback)
  | GetBatched (node : Node) (callback : Callback)
  | LoadMany (nodes : PostData)
  | LoadByPrefix (prefixes : list string)
  | AddNodes (nodes : list (string * Value))
  | InjectAdmin
  | ReportRenderedNode (node : Node)
  | ReportRemovedNode (u : string)
  | ResetOptions
  | ResetNodes
  | SetOptions (o : Options)
  | TimerFires (t : nat)
  | RequestSettles (r : nat) (o : FetchOutcome).

(** The part of the state that loads and their responses leave alone. *)
Definition core (s : State) :=
  (options s, _renderedNodes s, _batch s, _DJEDI_NODES s, window s, heap s,
   timers s).

(** The only pending timer is the one the batch knows. *)
Definition timerOfBatch (s : State) : Prop :=
  dom (timers s) =
  match timeoutId (_batch s) with
  | Some t => ({[ t ]} : gset nat)
  | None => ∅
  end.

(** [window.DJEDI_NODES] and [this._DJEDI_NODES] are one object. *)
Definition mirrored (s : State) : Prop :=
  match window s with
  | Some w => w = Some (_DJEDI_NODES s)
  | None => True
  end /\ is_Some (heap s !! _DJEDI_NODES s).

Definition invariant (s : State) : Prop :=
  onlyObjectKeys (_renderedNodes s) = true /\ timerOfBatch s /\ mirrored s.

Section Run.
Context {U : UriModule}.

Definition run (s : State) (a : Action) : State :=
  match a with
  | Get node callback => get node callback s
  | GetBatched node callback => getBatched node callback s
  | LoadMany nodes => loadMany nodes ThenCaller s
  | LoadByPrefix prefixes => loadByPrefix prefixes s
  | AddNodes nodes => addNodes nodes s
  | InjectAdmin => injectAdmin s
  | ReportRenderedNode node => reportRenderedNode node s
  | ReportRemovedNode u => reportRemovedNode u s
  | ResetOptions => resetOptions s
  | ResetNodes => resetNodes s
  | SetOptions o => set_options o s
  | TimerFires t => fire t s
  | RequestSettles r o => settle r o s
  end.

Definition runAll (acts : list Action) (s : State) : State :=
  foldl run s acts.

(** The version-stripped URIs of the registry entries filed under a URI
    with a count other than zero. *)
Definition trackedUris (s : State) : list string :=
  omap (fun kv =>
          match kv with
          | (KStr u, Some r) =>
              if bool_decide (numInstances r ≠ 0)
              then Some (_djediNodesUri s u) else None
          | _ => None
          end)
       (_renderedNodes s).

(** The reference count the registry holds for a URI, if any. *)
Definition referenceCount (s : State) (u : string) : option Z :=
  numInstances <$>
    mjoin (jsmap_get sameKey (KStr (_normalizeUri s u)) (_renderedNodes s)).
End Run.

(** The keys of the externally visible map. *)
Definition visibleKeys (s : State) : list string :=
  map fst (map_to_list (visibleNodes s)).

(** A URI object all of whose five fields are set. *)
Definition allExplicit (o : UriObject) : bool :=
  match scheme o, namespace o, path o, ext o, version o with
  | Some _, Some _, Some _, Some _, Some _ => true
  | _, _, _, _, _ => false
  end.

(** ** A page used in the examples

    A browser page whose [window.DJEDI_NODES] is not set yet, a node with a
    default value and a node without one. *)

Definition page : State := constructor (Window None).

Definition title : Node := {| uri := "home/title"; value := VStr "Hello" |}.

Definition footer : Node := {| uri := "home/footer.md"; value := VUndefined |}.

Definition ok (results : list (string * Value)) : FetchOutcome :=
  Responded {| resp_status := 200; statusText := "OK"; resp_text := None;
               resp_json := Some results |}.

(** Their normalized URIs, and the key [title] is published under. *)
Definition titleUri : string := uri (_normalizeNode (U := specUri) page title).

Definition footerUri : string :=
  uri (_normalizeNode (U := specUri) page footer).

Definition titleKey : string := _djediNodesUri (U := specUri) page titleUri.

(** ** Vocabulary of further statements *)

(** The callbacks a list of events invokes, in order. *)
Definition calledCallbacks (evs : list Event) : list Callback :=
  omap (fun e => match e with
                 | EvCall callback _ => Some callback
                 | _ => None
                 end) evs.

(** The calls by which the fulfilment handler of [_flushBatch] serves a
    queue from [results]; the missing-URI errors are allocated from [a]
    on, one per URI. *)
Fixpoint resultCalls (a : nat) (results : list (string * Value))
    (q : list (string * QueueEntry)) : list Event :=
  match q with
  | [] => []
  | (u, d) :: q' =>
      let v := property u results in
      if isNullish v then
        map (fun cb => EvCall cb (PError (missingUriError a u))) (callbacks d)
        ++ resultCalls (S a) results q'
      else
        map (fun cb => EvCall cb (PNode {| uri := u; value := v |}))
          (callbacks d)
        ++ resultCalls a results q'
  end.

(** The queue of the batch: one entry per URI, filed under the URI of its
    node, each with a callback; and a timer exactly when there is an
    entry. *)
Definition batchWellFormed (s : State) : Prop :=
  NoDup (map fst (queue (_batch s))) /\
  (timeoutId (_batch s) = None <-> queue (_batch s) = []) /\
  Forall (fun ud => uri (q_node (snd ud)) = fst ud /\ callbacks (snd ud) <> [])
    (queue (_batch s)).

(** Every cached node is filed under its own URI. *)
Definition cacheKeyed (s : State) : Prop :=
  forall k n, _nodes s !! k = Some n -> uri n = k.

Section MoreVocabulary.
Context {U : UriModule}.

(** The value of the last pair of [nodes] whose URI normalizes to [k]. *)
Fixpoint lastAdded (s : State) (k : string) (nodes : list (string * Value))
  : option Value :=
  match nodes with
  | [] => None
  | (u, v) :: rest =>
      match lastAdded s k rest with
      | Some w => Some w
      | None => if bool_decide (_normalizeUri s u = k) then Some v else None
      end
  end.

End MoreVocabulary.

(** * Properties of the client

    Everything in this section holds for every implementation of the
    [./uri] interface. *)

Section Proofs.
Context {U : UriModule}.

Lemma trace_post url d h s :
  trace (_post url d h s) =
  trace s ++ [EvFetch (fresh s) (baseUrl (options s) +:+ url) (JSON_stringify d)].
Proof. reflexivity. Qed.

Lemma inflight_post url d h s :
  inflight (_post url d h s) =
  <[fresh s := {| apiUrl := url; data := d; handlers := h |}]> (inflight s).
Proof. reflexivity. Qed.

Lemma get_uncached node callback s :
  _nodes s !! uri (_normalizeNode s node) = None ->
  get node callback s =
  loadMany (DataNodes [_normalizeNode s node])
    (ThenGet (uri (_normalizeNode s node)) callback) s.
Proof. intros H. unfold get. now rewrite H. Qed.

Lemma get_cached node callback s existingNode :
  _nodes s !! uri (_normalizeNode s node) = Some existingNode ->
  get node callback s = call (PNode existingNode) s callback.
Proof. intros H. unfold get. now rewrite H. Qed.

Lemma resetNodes_fields s :
  _nodes (resetNodes s) = ∅ /\
  _renderedNodes (resetNodes s) = [] /\
  _batch (resetNodes s) = makeEmptyBatch /\
  visibleNodes (resetNodes s) = ∅ /\
  options (resetNodes s) = options s /\
  inflight (resetNodes s) = inflight s /\
  trace (resetNodes s) = trace s /\
  timers (resetNodes s) =
    match timeoutId (_batch s) with
    | Some t => delete t (timers s)
    | None => timers s
    end.
Proof.
  unfold resetNodes, visibleNodes, newObject, alloc.
  destruct (timeoutId (_batch s)) as [t|]; cbn;
    destruct (window s) eqn:Hw; cbn; rewrite ?Hw; cbn;
    rewrite ?lookup_insert_eq; repeat split.
Qed.

(** C10. [resetOptions] replaces the options by the built-in defaults and
    leaves the node cache, the rendered-node registry, the externally
    visible map, the batch (queue and timer id), the pending timers and the
    requests in flight as they were. *)
Theorem resetOptions_frame (s : State) :
  options (resetOptions s) = makeDefaultOptions /\
  _nodes (resetOptions s) = _nodes s /\
  _renderedNodes (resetOptions s) = _renderedNodes s /\
  _DJEDI_NODES (resetOptions s) = _DJEDI_NODES s /\
  window (resetOptions s) = window s /\
  heap (resetOptions s) = heap s /\
  visibleNodes (resetOptions s) = visibleNodes s /\
  _batch (resetOptions s) = _batch s /\
  timers (resetOptions s) = timers s /\
  inflight (resetOptions s) = inflight s /\
  fresh (resetOptions s) = fresh s /\
  trace (resetOptions s) = trace s.
Proof. repeat split. Qed.

(** C8. [resetNodes] cancels the timer of the pending batch (so that none
    is pending where the batch's timer was the only one, as in every state a
    client can reach), empties the node cache, the rendered-node registry and
    the externally visible map, and a [get] that follows, for any node,
    issues a network request and invokes no callback. *)
Theorem resetNodes_clears (s : State) (node : Node) (callback : Callback) :
  let s' := resetNodes s in
  (forall t, timeoutId (_batch s) = Some t -> timers s' !! t = None) /\
  (timerOfBatch s -> timers s' = ∅) /\
  _batch s' = makeEmptyBatch /\
  _nodes s' = ∅ /\
  _renderedNodes s' = [] /\
  visibleNodes s' = ∅ /\
  trace s' = trace s /\
  trace (get node callback s') =
    trace s ++
    [EvFetch (fresh s') (baseUrl (options s') +:+ "/djedi/load_many")
       (JArray [json_of_node (_normalizeNode s' node)])] /\
  is_Some (inflight (get node callback s') !! fresh s').
Proof.
  intros s'.
  destruct (resetNodes_fields s) as (Hn & Hr & Hb & Hv & Ho & Hi & Ht & Htm).
  fold s' in Hn, Hr, Hb, Hv, Ho, Hi, Ht, Htm.
  repeat split; try assumption.
  - intros t Hsome. rewrite Htm, Hsome. apply lookup_delete_eq.
  - unfold timerOfBatch. intros Hdom. apply dom_empty_iff_L.
    rewrite Htm. destruct (timeoutId (_batch s)) as [t|]; [|assumption].
    rewrite dom_delete_L, Hdom. apply difference_diag_L.
  - rewrite get_uncached by (rewrite Hn; apply lookup_empty).
    unfold loadMany. now rewrite trace_post, Ht.
  - rewrite get_uncached by (rewrite Hn; apply lookup_empty).
    unfold loadMany. rewrite inflight_post, lookup_insert_eq. eauto.
Qed.

(** *** Delivery of callbacks *)

Lemma set_trace_same s : set_trace (trace s) s = s.
Proof. now destruct s. Qed.

Lemma deliver_eq p cbs s :
  deliver p cbs s =
  set_trace (trace s ++ map (fun cb => EvCall cb p) cbs) s.
Proof.
  unfold deliver. revert s.
  induction cbs as [|cb cbs IH]; intros s; simpl.
  - rewrite app_nil_r. symmetry. apply set_trace_same.
  - rewrite IH. unfold call, emit, set_trace. simpl.
    now rewrite <- app_assoc.
Qed.

Lemma onError_flush e q s :
  onError (ThenFlush q) e s = set_trace (trace s ++ errorCalls e q) s.
Proof.
  unfold onError, errorCalls. revert s.
  induction q as [|[u d] q IH]; intros s; simpl.
  - rewrite app_nil_r. symmetry. apply set_trace_same.
  - rewrite IH, deliver_eq. unfold set_trace. simpl.
    now rewrite <- app_assoc.
Qed.

Lemma foldl_frame {A B} (proj : State -> A) (f : State -> B -> State) l :
  (forall s x, proj (f s x) = proj s) ->
  forall s, proj (foldl f s l) = proj s.
Proof.
  intros Hf. induction l as [|x l IH]; intros s; simpl; [reflexivity|].
  now rewrite IH, Hf.
Qed.

(** Settling a request touches neither the batch nor the timers. *)
Lemma addNodes_frame nodes s :
  _batch (addNodes nodes s) = _batch s /\
  timers (addNodes nodes s) = timers s /\
  options (addNodes nodes s) = options s /\
  trace (addNodes nodes s) = trace s /\
  fresh (addNodes nodes s) = fresh s /\
  inflight (addNodes nodes s) = inflight s.
Proof.
  unfold addNodes.
  repeat split; apply foldl_frame; now intros ? [? ?].
Qed.

Lemma onResults_frame h results s :
  _batch (onResults h results s) = _batch s /\
  timers (onResults h results s) = timers s /\
  options (onResults h results s) = options s /\
  _nodes (onResults h results s) = _nodes s /\
  inflight (onResults h results s) = inflight s.
Proof.
  destruct h as [u cb|q|]; simpl.
  - destruct (truthy _); repeat split.
  - repeat split; apply foldl_frame; intros s' [u d];
      destruct (isNullish _); simpl; now rewrite deliver_eq.
  - repeat split.
Qed.

Lemma onError_frame h e s :
  _batch (onError h e s) = _batch s /\
  timers (onError h e s) = timers s /\
  options (onError h e s) = options s /\
  _nodes (onError h e s) = _nodes s /\
  inflight (onError h e s) = inflight s.
Proof.
  destruct h as [u cb|q|]; [repeat split| |repeat split].
  rewrite onError_flush. repeat split.
Qed.

Lemma settle_frame r o s :
  _batch (settle r o s) = _batch s /\
  timers (settle r o s) = timers s /\
  options (settle r o s) = options s.
Proof.
  unfold settle. destruct (inflight s !! r) as [req|]; [|repeat split].
  simpl. destruct (postResult _ req o) as [results|e].
  - destruct (onResults_frame (handlers req) results
                (addNodes results (set_inflight (delete r (inflight s)) s)))
      as (-> & -> & -> & _).
    destruct (addNodes_frame results (set_inflight (delete r (inflight s)) s))
      as (-> & -> & -> & _).
    repeat split.
  - destruct (onError_frame (handlers req) e
       (set_fresh (S (fresh s)) (set_inflight (delete r (inflight s)) s)))
      as (-> & -> & -> & _).
    repeat split.
Qed.

Lemma fire_pending t s :
  is_Some (timers s !! t) ->
  fire t s =
  _post "/djedi/load_many" (data (flushRequest s))
    (ThenFlush (queue (_batch s)))
    (set_batch makeEmptyBatch (set_timers (delete t (timers s)) s)).
Proof. intros [d Hd]. unfold fire. now rewrite Hd. Qed.

Lemma fire_fields t s :
  is_Some (timers s !! t) ->
  _batch (fire t s) = makeEmptyBatch /\
  timers (fire t s) = delete t (timers s) /\
  trace (fire t s) =
    trace s ++ [EvFetch (fresh s) (baseUrl (options s) +:+ "/djedi/load_many")
                  (JSON_stringify (data (flushRequest s)))] /\
  inflight (fire t s) = <[fresh s := flushRequest s]> (inflight s) /\
  fresh (fire t s) = S (fresh s) /\
  options (fire t s) = options s /\
  _nodes (fire t s) = _nodes s.
Proof. intros H. rewrite (fire_pending _ _ H). repeat split. Qed.

Lemma settle_found r o s req :
  inflight s !! r = Some req ->
  settle r o s =
  let s1 := set_inflight (delete r (inflight s)) s in
  match postResult (fresh s) req o with
  | inl results => onResults (handlers req) results (addNodes results s1)
  | inr e => onError (handlers req) e (set_fresh (S (fresh s)) s1)
  end.
Proof. intros H. unfold settle. now rewrite H. Qed.

(** C6. When the request issued by [_flushBatch] fails, settling it invokes
    every callback of every queued URI, in queue order, with one and the
    same error object, and does nothing else. *)
Theorem flush_failure_same_error (s : State) (t : nat) (o : FetchOutcome)
    (e : Error) :
  is_Some (timers s !! t) ->
  postResult (fresh (fire t s)) (flushRequest s) o = inr e ->
  trace (settle (fresh s) o (fire t s)) =
  trace (fire t s) ++ errorCalls e (queue (_batch s)).
Proof.
  intros Ht He.
  destruct (fire_fields t s Ht) as (_ & _ & _ & Hin & _).
  rewrite (settle_found _ _ _ (flushRequest s))
    by (rewrite Hin; apply lookup_insert_eq).
  cbv zeta. rewrite He. unfold flushRequest at 1.
  cbv [handlers]. now rewrite onError_flush.
Qed.

(** *** [getBatched] on an uncached node *)

Lemma getBatched_enqueue node callback s :
  0 < batchInterval (options s) ->
  _nodes s !! uri (_normalizeNode s node) = None ->
  getBatched node callback s =
  let n := _normalizeNode s node in
  let previous :=
    default {| q_node := n; callbacks := [] |}
      (jsmap_get sameString (uri n) (queue (_batch s))) in
  let q :=
    jsmap_set sameString (uri n)
      {| q_node := q_node previous;
         callbacks := callbacks previous ++ [callback] |}
      (queue (_batch s)) in
  match timeoutId (_batch s) with
  | Some t => set_batch {| timeoutId := Some t; queue := q |} s
  | None =>
      set_batch {| timeoutId := Some (fresh s); queue := q |}
        (set_timers (<[fresh s := batchInterval (options s)]> (timers s))
           (set_fresh (S (fresh s)) s))
  end.
Proof.
  intros Hpos Hnone. unfold getBatched.
  destruct (Z.leb_spec (batchInterval (options s)) 0) as [Hle|_]; [lia|].
  rewrite Hnone. cbv zeta. simpl.
  destruct (timeoutId (_batch s)); reflexivity.
Qed.

(** A callback is invoked while a request settles only if the request's
    handlers hold it. *)
Lemma onResults_calls h results s c p :
  EvCall c p ∈ trace (onResults h results s) ->
  EvCall c p ∈ trace s \/ c ∈ handlerCallbacks h.
Proof.
  destruct h as [u cb|q|]; simpl.
  - destruct (truthy _); simpl; rewrite elem_of_app, list_elem_of_singleton;
      intros [H|[= -> _]]; auto using list_elem_of_here.
  - revert s. induction q as [|[u d] q IH]; intros s; simpl; [auto|].
    intros H. apply IH in H as [H|H].
    + destruct (isNullish _); simpl in H; rewrite deliver_eq in H; simpl in H;
        apply elem_of_app in H as [H|H]; auto;
        apply list_elem_of_fmap in H as (cb & [= -> _] & Hcb);
        right; apply elem_of_app; auto.
    + right. apply elem_of_app. auto.
  - auto.
Qed.

Lemma onError_calls h e s c p :
  EvCall c p ∈ trace (onError h e s) ->
  EvCall c p ∈ trace s \/ c ∈ handlerCallbacks h.
Proof.
  destruct h as [u cb|q|]; [simpl| |simpl; auto].
  - rewrite elem_of_app, list_elem_of_singleton.
    intros [H|[= -> _]]; auto using list_elem_of_here.
  - rewrite onError_flush. simpl. rewrite elem_of_app.
    intros [H|H]; [auto|right].
    unfold errorCalls in H. apply list_elem_of_In, in_flat_map in H.
    destruct H as ([u d] & Hin & H).
    apply list_elem_of_In, list_elem_of_fmap in H as (cb & [= -> _] & Hcb).
    simpl. apply list_elem_of_In, in_flat_map. exists (u, d).
    split; [assumption|]. now apply list_elem_of_In.
Qed.

Lemma settle_calls r o s req c p :
  inflight s !! r = Some req ->
  EvCall c p ∈ trace (settle r o s) ->
  EvCall c p ∈ trace s \/ c ∈ handlerCallbacks (handlers req).
Proof.
  intros Hreq. rewrite (settle_found _ _ _ _ Hreq). cbv zeta.
  destruct (postResult _ req o) as [results|e]; intros H.
  - apply onResults_calls in H as [H|H]; [left|now right].
    now rewrite (proj1 (proj2 (proj2 (proj2 (addNodes_frame _ _))))) in H.
  - apply onError_calls in H as [H|H]; [now left|now right].
Qed.

(** C7. Once the timer has fired, the batch is a new empty one and the
    request in flight holds the detached queue.  A [getBatched] call for an
    uncached node then opens a batch of its own, with only its callback in
    the queue and a new timer, and whatever the outcome of the earlier
    request, settling it changes neither that batch nor the timers, and
    invokes a callback only if the detached queue holds it. *)
Theorem batch_after_fire_independent (s : State) (t : nat) (node : Node)
    (callback : Callback) (o : FetchOutcome) :
  is_Some (timers s !! t) ->
  0 < batchInterval (options s) ->
  let s1 := fire t s in
  let n := _normalizeNode s1 node in
  _nodes s1 !! uri n = None ->
  let s2 := getBatched node callback s1 in
  (* the queue was detached before the request was issued *)
  _batch s1 = makeEmptyBatch /\
  inflight s1 !! fresh s = Some (flushRequest s) /\
  (* the late call opens a batch of its own *)
  _batch s2 =
    {| timeoutId := Some (fresh s1);
       queue := [(uri n, {| q_node := n; callbacks := [callback] |})] |} /\
  timers s2 = <[fresh s1 := batchInterval (options s)]> (delete t (timers s)) /\
  fresh s1 ≠ fresh s /\
  inflight s2 = inflight s1 /\
  trace s2 = trace s1 /\
  (* which the response to the earlier request leaves alone *)
  _batch (settle (fresh s) o s2) = _batch s2 /\
  timers (settle (fresh s) o s2) = timers s2 /\
  (forall c p, EvCall c p ∈ trace (settle (fresh s) o s2) ->
     EvCall c p ∈ trace s2 \/
     c ∈ flat_map (fun '(_, d) => callbacks d) (queue (_batch s))).
Proof.
  intros Ht Hpos s1 n Hnone s2.
  destruct (fire_fields t s Ht) as (Hb & Htm & Htr & Hin & Hf & Ho & Hn).
  fold s1 in Hb, Htm, Htr, Hin, Hf, Ho, Hn.
  assert (Hs2 : s2 =
    set_batch {| timeoutId := Some (fresh s1);
                 queue := [(uri n, {| q_node := n; callbacks := [callback] |})] |}
      (set_timers (<[fresh s1 := batchInterval (options s1)]> (timers s1))
         (set_fresh (S (fresh s1)) s1))).
  { unfold s2. rewrite getBatched_enqueue by (rewrite ?Ho; assumption).
    cbv zeta. now rewrite Hb. }
  destruct (settle_frame (fresh s) o s2) as (Hsb & Hst & _).
  assert (Hin2 : inflight s2 !! fresh s = Some (flushRequest s)).
  { rewrite Hs2. simpl. rewrite Hin. apply lookup_insert_eq. }
  repeat split; try assumption.
  - rewrite Hin. apply lookup_insert_eq.
  - now rewrite Hs2.
  - rewrite Hs2. simpl. now rewrite Ho, Htm.
  - rewrite Hf. lia.
  - now rewrite Hs2.
  - now rewrite Hs2.
  - intros c p H. apply (settle_calls _ _ _ _ _ _ Hin2) in H. exact H.
Qed.

(** *** The body of a batch request *)

(** The serialized mapping has a key for each entry whose value is not
    [undefined], and for no other. *)
Lemma json_members_keys l :
  map fst (json_members l) =
  map fst (filter (fun kv => snd kv ≠ VUndefined) l).
Proof.
  unfold json_members. induction l as [|[k v] l IH]; [reflexivity|].
  destruct (decide (v = VUndefined)) as [->|E].
  - rewrite filter_cons_False by (simpl; intros H; now apply H).
    simpl. exact IH.
  - rewrite filter_cons_True by exact E.
    destruct v; [congruence| |]; simpl; f_equal; exact IH.
Qed.

Lemma flush_body_keys s :
  json_keys (JSON_stringify (data (flushRequest s))) =
  map fst (filter (fun kd => value (q_node (snd kd)) ≠ VUndefined)
             (queue (_batch s))).
Proof.
  unfold flushRequest, data, JSON_stringify, json_keys.
  rewrite json_members_keys.
  induction (queue (_batch s)) as [|[u d] q IH]; [reflexivity|].
  rewrite map_cons.
  destruct (decide (value (q_node d) = VUndefined)) as [E|E].
  - rewrite !filter_cons_False by (simpl; intros H; now apply H).
    exact IH.
  - rewrite !filter_cons_True by exact E. simpl. f_equal. exact IH.
Qed.

(** *** Two calls in one window *)

Lemma normalizeNode_options s s' node :
  options s = options s' -> _normalizeNode s node = _normalizeNode s' node.
Proof.
  intros H. unfold _normalizeNode, _stringifyUri, _parseUri. now rewrite H.
Qed.

Lemma sameString_refl u : sameString u u = true.
Proof. unfold sameString. now rewrite bool_decide_eq_true. Qed.

Lemma sameString_ne u v : u ≠ v -> sameString u v = false.
Proof. intros H. unfold sameString. now rewrite bool_decide_eq_false. Qed.

(** Two calls for distinct uncached URIs, the first of which opens the
    window: one timer, and when it fires one request, whose handlers hold
    both callbacks.  The serialized body lists the URIs whose default is
    not [undefined]. *)
Lemma two_calls_one_request s node1 node2 c1 c2 :
  let n1 := _normalizeNode s node1 in
  let n2 := _normalizeNode s node2 in
  let s2 := getBatched node2 c2 (getBatched node1 c1 s) in
  let q := [(uri n1, {| q_node := n1; callbacks := [c1] |});
            (uri n2, {| q_node := n2; callbacks := [c2] |})] in
  0 < batchInterval (options s) ->
  _batch s = makeEmptyBatch ->
  uri n1 ≠ uri n2 ->
  _nodes s !! uri n1 = None ->
  _nodes s !! uri n2 = None ->
  trace s2 = trace s /\
  inflight s2 = inflight s /\
  timers s2 = <[fresh s := batchInterval (options s)]> (timers s) /\
  _batch s2 = {| timeoutId := Some (fresh s); queue := q |} /\
  trace (fire (fresh s) s2) =
    trace s ++
    [EvFetch (S (fresh s)) (baseUrl (options s) +:+ "/djedi/load_many")
       (JObject (json_members [(uri n1, value n1); (uri n2, value n2)]))] /\
  inflight (fire (fresh s) s2) !! S (fresh s) =
    Some {| apiUrl := "/djedi/load_many";
            data := DataMapping [(uri n1, value n1); (uri n2, value n2)];
            handlers := ThenFlush q |}.
Proof.
  intros n1 n2 s2 q Hpos Hb Hne H1 H2.
  pose proof (getBatched_enqueue node1 c1 s Hpos H1) as E1.
  cbv zeta in E1. fold n1 in E1. rewrite Hb in E1. simpl in E1.
  set (s1 := getBatched node1 c1 s) in *.
  assert (Ho : options s1 = options s) by now rewrite E1.
  assert (En : _normalizeNode s1 node2 = n2)
    by now apply normalizeNode_options.
  assert (E2 : s2 = set_batch {| timeoutId := Some (fresh s); queue := q |} s1).
  { unfold s2. rewrite getBatched_enqueue; rewrite ?Ho, ?En; try assumption.
    - cbv zeta. rewrite E1. simpl.
      assert (Hs : sameString (uri n2) (uri n1) = false)
        by (apply sameString_ne; congruence).
      simpl in Hs. now rewrite !Hs.
    - now rewrite E1. }
  assert (Ht : is_Some (timers s2 !! fresh s)).
  { rewrite E2, E1. simpl. rewrite lookup_insert_eq. eauto. }
  destruct (fire_fields _ _ Ht) as (_ & _ & Htr & Hin & _).
  assert (Hf : fresh s2 = S (fresh s)) by now rewrite E2, E1.
  rewrite Htr, Hin, Hf, lookup_insert_eq.
  rewrite E2, E1. simpl. repeat split.
Qed.

(** Either way the request settles, both callbacks are served from it. *)
Lemma two_calls_delivery s node1 node2 c1 c2 o :
  let n1 := _normalizeNode s node1 in
  let n2 := _normalizeNode s node2 in
  let s3 := fire (fresh s) (getBatched node2 c2 (getBatched node1 c1 s)) in
  0 < batchInterval (options s) ->
  _batch s = makeEmptyBatch ->
  uri n1 ≠ uri n2 ->
  _nodes s !! uri n1 = None ->
  _nodes s !! uri n2 = None ->
  exists req,
    inflight s3 !! S (fresh s) = Some req /\
    trace (settle (S (fresh s)) o s3) =
    trace s3 ++
    match postResult (fresh s3) req o with
    | inl results =>
        let a1 := fresh s3 in
        let a2 := if isNullish (property (uri n1) results) then S a1 else a1 in
        [EvCall c1 (batchPayload a1 (uri n1) results);
         EvCall c2 (batchPayload a2 (uri n2) results)]
    | inr e => [EvCall c1 (PError e); EvCall c2 (PError e)]
    end.
Proof.
  intros n1 n2 s3 Hpos Hb Hne H1 H2.
  destruct (two_calls_one_request s node1 node2 c1 c2 Hpos Hb Hne H1 H2)
    as (_ & _ & _ & _ & _ & Hin).
  fold n1 n2 s3 in Hin.
  eexists. split; [exact Hin|].
  rewrite (settle_found _ _ _ _ Hin). cbv zeta.
  destruct (postResult (fresh s3) _ o) as [results|e] eqn:Hp.
  - cbv [handlers onResults foldl batchPayload callbacks].
    set (s4 := addNodes results _).
    destruct (addNodes_frame results
                (set_inflight (delete (S (fresh s)) (inflight s3)) s3))
      as (_ & _ & _ & Htr & Hfr & _).
    fold s4 in Htr, Hfr. simpl in Htr, Hfr. rewrite <- Htr, <- Hfr.
    destruct (isNullish (property (uri n1) results)),
             (isNullish (property (uri n2) results)); simpl;
      rewrite <- app_assoc; reflexivity.
  - cbv [handlers]. now rewrite onError_flush.
Qed.

(** *** [get] on an uncached node *)

(** The request of [get] carries the node itself, in an array. *)
Lemma get_uncached_request s node callback :
  let n := _normalizeNode s node in
  _nodes s !! uri n = None ->
  trace (get node callback s) =
    trace s ++
    [EvFetch (fresh s) (baseUrl (options s) +:+ "/djedi/load_many")
       (JArray [json_of_node n])] /\
  inflight (get node callback s) !! fresh s =
    Some {| apiUrl := "/djedi/load_many"; data := DataNodes [n];
            handlers := ThenGet (uri n) callback |} /\
  fresh (get node callback s) = S (fresh s).
Proof.
  intros n Hnone. rewrite get_uncached by assumption.
  unfold loadMany. rewrite trace_post, inflight_post, lookup_insert_eq.
  repeat split.
Qed.

(** What the callback of [get] receives once the response is in. *)
Lemma get_fulfilled s node callback response results :
  let n := _normalizeNode s node in
  let s1 := get node callback s in
  _nodes s !! uri n = None ->
  200 <= resp_status response < 400 ->
  resp_json response = Some results ->
  trace (settle (fresh s) (Responded response) s1) =
  trace s1 ++
  [EvCall callback
     (if truthy (property (uri n) results)
      then PValue (property (uri n) results)
      else PError (missingUriError (fresh s1) (uri n)))].
Proof.
  intros n s1 Hnone [Hlo Hhi] Hjson.
  destruct (get_uncached_request s node callback Hnone) as (_ & Hin & Hf).
  fold n s1 in Hin, Hf.
  rewrite (settle_found _ _ _ _ Hin). cbv zeta.
  unfold postResult. rewrite Hjson.
  destruct (Z.leb_spec 200 (resp_status response)); [|lia].
  destruct (Z.ltb_spec (resp_status response) 400); [|lia].
  cbv [andb handlers onResults].
  set (s2 := addNodes results _).
  destruct (addNodes_frame results
              (set_inflight (delete (fresh s) (inflight s1)) s1))
    as (_ & _ & _ & Htr & Hfr & _).
  fold s2 in Htr, Hfr. simpl in Htr, Hfr. rewrite <- Htr, <- Hfr.
  destruct (truthy _); reflexivity.
Qed.

(** The status an error of [_post] carries: [-1] without a response, the
    response's status otherwise. *)
Lemma postResult_status a req o e :
  postResult a req o = inr e ->
  match o with
  | Rejected => status e = -1
  | Responded response => status e = resp_status response
  end.
Proof.
  unfold postResult. destruct o as [|response]; [now intros [= <-]|].
  destruct (_ && _); [destruct (resp_json response)|];
    now intros [= <-].
Qed.

(** C5, amended.  When the load of [get] succeeds: if the response omits the
    URI or maps it to [null], the callback receives the missing-URI error,
    whose status is 1404; if it maps the URI to a non-empty string, the
    callback receives that string.  The status 1404 differs from the status
    of every error of [_post]: [-1] without a response, a three-digit
    status otherwise. *)
Theorem get_missing_or_value (s : State) (node : Node) (callback : Callback)
    (response : Response) (results : list (string * Value)) :
  let n := _normalizeNode s node in
  let s1 := get node callback s in
  let s2 := settle (fresh s) (Responded response) s1 in
  _nodes s !! uri n = None ->
  200 <= resp_status response < 400 ->
  resp_json response = Some results ->
  (jsmap_get sameString (uri n) results = None \/
   jsmap_get sameString (uri n) results = Some VNull ->
   trace s2 =
     trace s1 ++ [EvCall callback (PError (missingUriError (fresh s1) (uri n)))]
   /\ status (missingUriError (fresh s1) (uri n)) = 1404) /\
  (forall v, jsmap_get sameString (uri n) results = Some (VStr v) ->
     v ≠ "" ->
     trace s2 = trace s1 ++ [EvCall callback (PValue (VStr v))]) /\
  (forall a a' u req o e,
     postResult a req o = inr e ->
     (forall r, o = Responded r -> 0 <= resp_status r < 1000) ->
     status e ≠ status (missingUriError a' u)).
Proof.
  intros n s1 s2 Hnone Hst Hjson.
  pose proof (get_fulfilled s node callback response results Hnone Hst Hjson)
    as Htr.
  fold n s1 s2 in Htr. unfold property in Htr.
  split; [|split].
  - intros [H|H]; rewrite H in Htr; simpl in Htr; now split.
  - intros v H Hv. rewrite H in Htr. simpl in Htr.
    now rewrite bool_decide_eq_false_2 in Htr.
  - intros a a' u req o e Hp Hr. apply postResult_status in Hp.
    simpl. destruct o as [|r]; [lia|].
    specialize (Hr r eq_refl). lia.
Qed.

(** *** The rendered-node registry *)

Lemma jsmap_get_string_key u m :
  onlyObjectKeys m = true -> jsmap_get sameKey (KStr u) m = None.
Proof.
  induction m as [|[k v] m IH]; simpl; [reflexivity|].
  intros H. apply andb_true_iff in H as [Hk Hm].
  destruct k; [discriminate|]. simpl. auto.
Qed.

Lemma jsmap_set_object_key a literal v m :
  onlyObjectKeys m = true ->
  onlyObjectKeys (jsmap_set sameKey (KObj a literal) v m) = true.
Proof.
  induction m as [|[k v'] m IH]; simpl; [reflexivity|].
  intros H. apply andb_true_iff in H as [Hk Hm].
  destruct k as [u|b lit]; [discriminate|]. simpl.
  destruct (bool_decide (a = b)); simpl; auto.
Qed.

(** With no string key in the registry, a removal finds nothing. *)
Lemma reportRemovedNode_noop u s :
  onlyObjectKeys (_renderedNodes s) = true -> reportRemovedNode u s = s.
Proof.
  intros H. unfold reportRemovedNode.
  now rewrite jsmap_get_string_key.
Qed.

(** And a rendering files its entry under a new object. *)
Lemma reportRenderedNode_untracked node s :
  onlyObjectKeys (_renderedNodes s) = true ->
  let n := _normalizeNode s node in
  reportRenderedNode node s =
  setProperty (_DJEDI_NODES s) (_djediNodesUri s (uri n)) (value n)
    (set_renderedNodes
       (jsmap_set sameKey
          (KObj (fresh s) {| r_value := value n; numInstances := 1 |}) None
          (_renderedNodes s))
       (set_fresh (S (fresh s)) s)).
Proof.
  intros H n. unfold reportRenderedNode. fold n.
  now rewrite jsmap_get_string_key.
Qed.

(** *** Reachable states *)

Lemma core_eq s s' :
  core s' = core s ->
  options s' = options s /\ _renderedNodes s' = _renderedNodes s /\
  _batch s' = _batch s /\ _DJEDI_NODES s' = _DJEDI_NODES s /\
  window s' = window s /\ heap s' = heap s /\ timers s' = timers s.
Proof. unfold core. intros [= -> -> -> -> -> -> ->]. repeat split. Qed.

Lemma invariant_core s s' : core s' = core s -> invariant s -> invariant s'.
Proof.
  intros H. apply core_eq in H as (_ & Hr & Hb & Hd & Hw & Hh & Ht).
  unfold invariant, timerOfBatch, mirrored.
  now rewrite Hr, Hb, Hd, Hw, Hh, Ht.
Qed.

Lemma core_addNodes nodes s : core (addNodes nodes s) = core s.
Proof. unfold addNodes. apply foldl_frame. now intros ? [? ?]. Qed.

Lemma core_onResults h results s : core (onResults h results s) = core s.
Proof.
  destruct h as [u cb|q|]; simpl; [now destruct (truthy _)| |reflexivity].
  apply foldl_frame. intros s' [u d].
  destruct (isNullish _); simpl; now rewrite deliver_eq.
Qed.

Lemma core_onError h e s : core (onError h e s) = core s.
Proof.
  destruct h as [u cb|q|]; [reflexivity| |reflexivity].
  now rewrite onError_flush.
Qed.

Lemma core_settle r o s : core (settle r o s) = core s.
Proof.
  unfold settle. destruct (inflight s !! r) as [req|]; [|reflexivity].
  simpl. destruct (postResult _ req o) as [results|e].
  - now rewrite core_onResults, core_addNodes.
  - now rewrite core_onError.
Qed.

Lemma core_get node callback s : core (get node callback s) = core s.
Proof. unfold get. now destruct (_nodes s !! _). Qed.

Lemma invariant_constructor env : invariant (constructor env).
Proof.
  destruct env as [|[nodes|]]; repeat split; simpl;
    rewrite ?lookup_insert_eq; eauto using dom_empty_L.
Qed.

Lemma invariant_getBatched node callback s :
  invariant s -> invariant (getBatched node callback s).
Proof.
  intros H. unfold getBatched.
  destruct (batchInterval (options s) <=? 0).
  { apply (invariant_core s); [apply core_get|exact H]. }
  destruct (_nodes s !! _); [exact H|].
  destruct H as (Hr & Ht & Hm).
  unfold timerOfBatch in Ht. simpl.
  destruct (timeoutId (_batch s)) as [t|] eqn:Hid; simpl.
  - split; [assumption|split; [exact Ht|exact Hm]].
  - split; [assumption|split; [|exact Hm]].
    unfold timerOfBatch. simpl. rewrite dom_insert_L, Ht.
    apply (right_id_L ∅ (∪)).
Qed.

Lemma invariant_reportRenderedNode node s :
  invariant s -> invariant (reportRenderedNode node s).
Proof.
  intros (Hr & Ht & Hw & Hh).
  rewrite reportRenderedNode_untracked by assumption.
  repeat split; simpl; try assumption.
  - now apply jsmap_set_object_key.
  - rewrite lookup_alter_eq. destruct Hh as [m ->]. simpl. eauto.
Qed.

Lemma invariant_resetNodes s : invariant s -> invariant (resetNodes s).
Proof.
  intros (Hr & Ht & Hw & Hh). unfold timerOfBatch in Ht.
  destruct (resetNodes_fields s) as (_ & Hr' & Hb' & _ & _ & _ & _ & Ht').
  split; [now rewrite Hr'|split].
  - unfold timerOfBatch. rewrite Hb', Ht'. simpl.
    destruct (timeoutId (_batch s)) as [t|]; [|assumption].
    rewrite dom_delete_L, Ht. apply difference_diag_L.
  - unfold resetNodes, mirrored, newObject, alloc.
    destruct (timeoutId (_batch s)); simpl;
      destruct (window s) eqn:E; simpl; rewrite ?E; simpl;
      rewrite lookup_insert_eq; eauto.
Qed.

Lemma invariant_fire t s : invariant s -> invariant (fire t s).
Proof.
  intros H. unfold fire.
  destruct (timers s !! t) as [d|] eqn:Hd; [|exact H].
  destruct H as (Hr & Ht & Hm).
  unfold timerOfBatch in Ht.
  assert (Hin : t ∈ dom (timers s)) by (apply elem_of_dom; eauto).
  repeat split; try assumption; try apply Hm.
  unfold timerOfBatch. simpl. rewrite dom_delete_L, Ht.
  rewrite Ht in Hin. destruct (timeoutId (_batch s)) as [t'|].
  - apply elem_of_singleton in Hin as ->. apply difference_diag_L.
  - now apply not_elem_of_empty in Hin.
Qed.

Lemma invariant_run s a : invariant s -> invariant (run s a).
Proof.
  intros H. destruct a; simpl.
  - apply (invariant_core s); [apply core_get|assumption].
  - now apply invariant_getBatched.
  - exact H.
  - exact H.
  - apply (invariant_core s); [apply core_addNodes|assumption].
  - exact H.
  - now apply invariant_reportRenderedNode.
  - rewrite reportRemovedNode_noop; [assumption|apply H].
  - exact H.
  - now apply invariant_resetNodes.
  - exact H.
  - now apply invariant_fire.
  - apply (invariant_core s); [apply core_settle|assumption].
Qed.

(** Whatever happens to a client after its construction, the invariant
    holds. *)
Lemma invariant_runAll env acts : invariant (runAll acts (constructor env)).
Proof.
  unfold runAll.
  assert (G : forall s, invariant s -> invariant (foldl run s acts)).
  { induction acts as [|a acts IH]; intros s H; simpl; [assumption|].
    apply IH. now apply invariant_run. }
  apply G, invariant_constructor.
Qed.

(** So a removal never changes anything. *)
Lemma removal_after_run_noop env acts u :
  reportRemovedNode u (runAll acts (constructor env)) =
  runAll acts (constructor env).
Proof. apply reportRemovedNode_noop, invariant_runAll. Qed.

Lemma trackedUris_only_object_keys s :
  onlyObjectKeys (_renderedNodes s) = true -> trackedUris s = [].
Proof.
  unfold trackedUris. induction (_renderedNodes s) as [|[k v] m IH]; simpl;
    [reflexivity|].
  intros H. apply andb_true_iff in H as [Hk Hm].
  destruct k; [discriminate|]. auto.
Qed.
End Proofs.

(** ** The model of [./uri]: parsing and serializing *)

Lemma app_String c a b : String c a +:+ b = String c (a +:+ b).
Proof. reflexivity. Qed.

Lemma app_empty_l a : "" +:+ a = a.
Proof. reflexivity. Qed.

Lemma string_app_assoc a b c : (a +:+ b) +:+ c = a +:+ (b +:+ c).
Proof.
  induction a as [|x a IH]; [reflexivity|].
  now rewrite !app_String, IH.
Qed.

Lemma starts_with_split p s :
  Uri.starts_with p s = true ->
  s = p +:+ Uri.drop_chars (String.length p) s.
Proof.
  revert s. induction p as [|a p IH]; intros s; [reflexivity|].
  destruct s as [|b s]; simpl; [discriminate|].
  intros H. apply andb_true_iff in H as [Hab Hp].
  apply bool_decide_eq_true in Hab as ->.
  now rewrite app_String, <- IH.
Qed.

Lemma starts_with_app p s : Uri.starts_with p (p +:+ s) = true.
Proof.
  induction p as [|a p IH]; [reflexivity|].
  rewrite app_String. simpl. now rewrite bool_decide_eq_true_2.
Qed.

(** The two parts [partition] returns enclose the separator. *)
Lemma partition_split sep s a b :
  Uri.partition sep s = Some (a, b) -> s = a +:+ sep +:+ b.
Proof.
  revert a. induction s as [|c s IH]; intros a; simpl.
  - destruct (Uri.starts_with sep "") eqn:Hs; [|discriminate].
    intros [= <- <-]. now apply starts_with_split.
  - destruct (Uri.starts_with sep (String c s)) eqn:Hs.
    + intros [= <- <-]. now apply starts_with_split.
    + destruct (Uri.partition sep s) as [[a' b']|]; [|discriminate].
      intros [= <- <-]. rewrite app_String. f_equal. now apply IH.
Qed.

Lemma drop_chars_app a b :
  Uri.drop_chars (String.length a) (a +:+ b) = b.
Proof. induction a as [|x a IH]; [reflexivity|]. now rewrite app_String. Qed.

Lemma drop_chars_app_le n y b :
  (n <= String.length y)%nat ->
  Uri.drop_chars n (y +:+ b) = Uri.drop_chars n y +:+ b.
Proof.
  revert y. induction n as [|n IH]; intros y Hn; [reflexivity|].
  destruct y as [|x y]; simpl in Hn; [lia|].
  rewrite app_String. simpl. apply IH. lia.
Qed.

Lemma string_length_app a b :
  String.length (a +:+ b) = (String.length a + String.length b)%nat.
Proof.
  induction a as [|x a IH]; [reflexivity|].
  rewrite app_String. simpl. now rewrite IH.
Qed.

(** A separator that occurs is found, and what follows its occurrence is
    kept at the end of the second part. *)
Lemma partition_finds sep a b :
  exists a' c, Uri.partition sep (a +:+ sep +:+ b) = Some (a', c +:+ b).
Proof.
  induction a as [|x a (a' & c & IH)].
  - exists "", "". rewrite !app_empty_l.
    destruct sep as [|y sep]; [destruct b; reflexivity|].
    rewrite app_String.
    change (Uri.partition (String y sep) (String y (sep +:+ b)))
      with (if Uri.starts_with (String y sep) (String y (sep +:+ b))
            then Some ("", Uri.drop_chars (String.length (String y sep))
                             (String y (sep +:+ b)))
            else match Uri.partition (String y sep) (sep +:+ b) with
                 | Some (a, b) => Some (String y a, b)
                 | None => None
                 end).
    rewrite <- app_String, starts_with_app, drop_chars_app. reflexivity.
  - rewrite app_String.
    change (Uri.partition sep (String x (a +:+ sep +:+ b)))
      with (if Uri.starts_with sep (String x (a +:+ sep +:+ b))
            then Some ("", Uri.drop_chars (String.length sep)
                             (String x (a +:+ sep +:+ b)))
            else match Uri.partition sep (a +:+ sep +:+ b) with
                 | Some (a, b) => Some (String x a, b)
                 | None => None
                 end).
    destruct (Uri.starts_with sep (String x (a +:+ sep +:+ b))) eqn:Hs.
    + exists "", (Uri.drop_chars (String.length sep) (String x a +:+ sep)).
      rewrite <- app_String, <- string_app_assoc.
      rewrite drop_chars_app_le; [reflexivity|].
      rewrite string_length_app. lia.
    + rewrite IH. now exists (String x a'), c.
Qed.

(** Parsing a string that sets all five fields and serializing the result
    gives the string back, whatever the defaults. *)
Lemma parse_stringify seps d byScheme u :
  allExplicit (Uri.parseUri u seps) = true ->
  Uri.stringifyUri (Uri.applyUriDefaults (Uri.parseUri u seps) d byScheme) seps
  = u.
Proof.
  unfold Uri.parseUri.
  destruct (Uri.partition (sep_scheme seps) u) as [[sc r1]|] eqn:H1.
  2: { destruct (Uri.partition (sep_namespace seps) u) as [[ns r2]|];
       [destruct (Uri.partition (sep_ext seps) r2) as [[p r3]|];
          [destruct (Uri.partition (sep_version seps) r3) as [[e v]|]
          |destruct (Uri.partition (sep_version seps) r2) as [[p v]|]]
       |destruct (Uri.partition (sep_ext seps) u) as [[p r3]|];
          [destruct (Uri.partition (sep_version seps) r3) as [[e v]|]
          |destruct (Uri.partition (sep_version seps) u) as [[p v]|]]];
       discriminate. }
  destruct (Uri.partition (sep_namespace seps) r1) as [[ns r2]|] eqn:H2.
  2: { destruct (Uri.partition (sep_ext seps) r1) as [[p r3]|];
         [destruct (Uri.partition (sep_version seps) r3) as [[e v]|]
         |destruct (Uri.partition (sep_version seps) r1) as [[p v]|]];
       discriminate. }
  destruct (Uri.partition (sep_ext seps) r2) as [[p r3]|] eqn:H3.
  - destruct (Uri.partition (sep_version seps) r3) as [[e v]|] eqn:H4;
      [|discriminate].
    intros _. unfold Uri.stringifyUri, Uri.applyUriDefaults. simpl.
    apply partition_split in H1, H2, H3, H4. now subst.
  - destruct (Uri.partition (sep_version seps) r2) as [[p v]|];
      discriminate.
Qed.

(** Every string of the serialized shape sets all five fields. *)
Lemma shape_all_explicit seps sc ns p e v :
  allExplicit
    (Uri.parseUri
       (sc +:+ sep_scheme seps +:+ ns +:+ sep_namespace seps +:+
        p +:+ sep_ext seps +:+ e +:+ sep_version seps +:+ v) seps) = true.
Proof.
  unfold Uri.parseUri.
  destruct (partition_finds (sep_scheme seps) sc
              (ns +:+ sep_namespace seps +:+ p +:+ sep_ext seps +:+ e +:+
               sep_version seps +:+ v)) as (a1 & c1 & ->).
  rewrite <- string_app_assoc.
  destruct (partition_finds (sep_namespace seps) (c1 +:+ ns)
              (p +:+ sep_ext seps +:+ e +:+ sep_version seps +:+ v))
    as (a2 & c2 & ->).
  rewrite <- string_app_assoc.
  destruct (partition_finds (sep_ext seps) (c2 +:+ p)
              (e +:+ sep_version seps +:+ v)) as (a3 & c3 & ->).
  rewrite <- string_app_assoc.
  destruct (partition_finds (sep_version seps) (c3 +:+ e) v)
    as (a4 & c4 & ->).
  reflexivity.
Qed.

(** C9.  For a URI string in which all five fields are explicit, under the
    configured separators, normalizing (parsing, applying the defaults and
    serializing) returns the string itself. *)
Theorem normalize_explicit_identity (s : State) (u : string) :
  allExplicit
    (Uri.parseUri u (separators (uri_options (options s)))) = true ->
  @_normalizeUri specUri s u = u.
Proof. apply parse_stringify. Qed.

(** * Further properties of the client *)

Section More.
Context {U : UriModule}.

(** *** The cache *)

Lemma normalizeUri_options s s' u :
  options s = options s' -> _normalizeUri s u = _normalizeUri s' u.
Proof.
  intros H. unfold _normalizeUri, _stringifyUri, _parseUri. now rewrite H.
Qed.

Lemma lastAdded_options s s' k nodes :
  options s = options s' -> lastAdded s k nodes = lastAdded s' k nodes.
Proof.
  intros H. induction nodes as [|[u v] nodes IH]; [reflexivity|].
  simpl. now rewrite IH, (normalizeUri_options s s' u H).
Qed.

(** What the cache holds after [addNodes]: for each key the last pair
    normalizing to it, and what was there before for the other keys. *)
Lemma addNodes_lookup nodes s k :
  _nodes (addNodes nodes s) !! k =
  match lastAdded s k nodes with
  | Some v => Some {| uri := k; value := v |}
  | None => _nodes s !! k
  end.
Proof.
  revert s. induction nodes as [|[u v] nodes IH]; intros s; [reflexivity|].
  change (addNodes ((u, v) :: nodes) s)
    with (addNodes nodes
            (set_nodes (<[_normalizeUri s u := {| uri := _normalizeUri s u;
                                                   value := v |}]> (_nodes s))
               s)).
  rewrite IH. simpl.
  rewrite (lastAdded_options _ s k nodes) by reflexivity.
  destruct (lastAdded s k nodes) as [w|]; [reflexivity|].
  simpl. destruct (decide (_normalizeUri s u = k)) as [E|E].
  - rewrite bool_decide_eq_true_2 by assumption.
    rewrite E. now rewrite lookup_insert_eq.
  - rewrite bool_decide_eq_false_2 by assumption.
    now rewrite lookup_insert_ne.
Qed.

(** X1. A node added with [addNodes] is served by [get] from the cache: the
    callback is invoked at once with the node filed under the normalized
    URI, carrying the value of the last pair added for it, and no request is
    issued. *)
Theorem addNodes_then_get (s : State) (nodes : list (string * Value))
    (node : Node) (callback : Callback) (v : Value) :
  let k := uri (_normalizeNode s node) in
  let s1 := addNodes nodes s in
  lastAdded s k nodes = Some v ->
  trace (get node callback s1) =
    trace s ++ [EvCall callback (PNode {| uri := k; value := v |})] /\
  inflight (get node callback s1) = inflight s /\
  _nodes (get node callback s1) = _nodes s1.
Proof.
  intros k s1 Hlast.
  destruct (addNodes_frame nodes s) as (_ & _ & Ho & Htr & _ & Hin).
  fold s1 in Ho, Htr, Hin.
  assert (Hk : uri (_normalizeNode s1 node) = k).
  { unfold k. f_equal. now apply normalizeNode_options. }
  rewrite (get_cached node callback s1 {| uri := k; value := v |}).
  - simpl. now rewrite Htr, Hin.
  - rewrite Hk. unfold s1. now rewrite addNodes_lookup, Hlast.
Qed.

(** X2. Once the response to [get] is in, the node is cached: a second
    [get] for it is answered at once with the node object and issues no
    request. *)
Theorem get_twice_cached (s : State) (node : Node) (c1 c2 : Callback)
    (response : Response) (results : list (string * Value)) (v : Value) :
  let k := uri (_normalizeNode s node) in
  let s2 := settle (fresh s) (Responded response) (get node c1 s) in
  _nodes s !! k = None ->
  200 <= resp_status response < 400 ->
  resp_json response = Some results ->
  lastAdded s k results = Some v ->
  trace (get node c2 s2) =
    trace s2 ++ [EvCall c2 (PNode {| uri := k; value := v |})] /\
  inflight (get node c2 s2) = inflight s2.
Proof.
  intros k s2 Hnone [Hlo Hhi] Hjson Hlast.
  destruct (get_uncached_request s node c1 Hnone) as (_ & Hin & Hf).
  fold k in Hin.
  assert (Hs2 : options s2 = options s /\
                _nodes s2 !! k = Some {| uri := k; value := v |}).
  { unfold s2. rewrite (settle_found _ _ _ _ Hin). cbv zeta.
    unfold postResult. rewrite Hjson.
    destruct (Z.leb_spec 200 (resp_status response)); [|lia].
    destruct (Z.ltb_spec (resp_status response) 400); [|lia].
    cbv [andb handlers].
    set (s1 := set_inflight _ _).
    destruct (onResults_frame (ThenGet k c1) results (addNodes results s1))
      as (_ & _ & -> & -> & _).
    destruct (addNodes_frame results s1) as (_ & _ & -> & _).
    split.
    - unfold s1. simpl. now rewrite get_uncached by assumption.
    - rewrite addNodes_lookup.
      rewrite (lastAdded_options s1 s k results).
      + now rewrite Hlast.
      + unfold s1. simpl. now rewrite get_uncached by assumption. }
  destruct Hs2 as (Ho & Hk).
  assert (Hn : uri (_normalizeNode s2 node) = k).
  { unfold k. f_equal. now apply normalizeNode_options. }
  rewrite (get_cached node c2 s2 {| uri := k; value := v |})
    by now rewrite Hn.
  split; reflexivity.
Qed.

(** *** The batch *)

(** X3. Two [getBatched] calls whose URIs normalize to one uncached URI,
    the first opening the window, share a single queue entry: it keeps the
    node (and default value) of the first call and holds both callbacks in
    order; one timer is set, and when it fires the body of the one request
    carries the first default only. *)
Theorem same_uri_shares_entry (s : State) (node1 node2 : Node)
    (c1 c2 : Callback) :
  let n1 := _normalizeNode s node1 in
  let s2 := getBatched node2 c2 (getBatched node1 c1 s) in
  0 < batchInterval (options s) ->
  _batch s = makeEmptyBatch ->
  uri (_normalizeNode s node2) = uri n1 ->
  _nodes s !! uri n1 = None ->
  _batch s2 =
    {| timeoutId := Some (fresh s);
       queue := [(uri n1, {| q_node := n1; callbacks := [c1; c2] |})] |} /\
  timers s2 = <[fresh s := batchInterval (options s)]> (timers s) /\
  trace (fire (fresh s) s2) =
    trace s ++
    [EvFetch (S (fresh s)) (baseUrl (options s) +:+ "/djedi/load_many")
       (JObject (json_members [(uri n1, value node1)]))].
Proof.
  intros n1 s2 Hpos Hb Heq H1.
  pose proof (getBatched_enqueue node1 c1 s Hpos H1) as E1.
  cbv zeta in E1. fold n1 in E1. rewrite Hb in E1. simpl in E1.
  set (s1 := getBatched node1 c1 s) in *.
  assert (Ho : options s1 = options s) by now rewrite E1.
  assert (En : _normalizeNode s1 node2 = _normalizeNode s node2)
    by now apply normalizeNode_options.
  assert (Hs : sameString (uri n1) (uri n1) = true) by apply sameString_refl.
  simpl in Hs.
  assert (E2 : s2 =
    set_batch {| timeoutId := Some (fresh s);
                 queue := [(uri n1, {| q_node := n1;
                                       callbacks := [c1; c2] |})] |} s1).
  { unfold s2. rewrite getBatched_enqueue; rewrite ?Ho, ?En, ?Heq;
      try assumption.
    - cbv zeta. rewrite E1. simpl.
      pose proof Heq as Heq'. simpl in Heq'. now rewrite !Heq', !Hs.
    - now rewrite E1. }
  assert (Ht : is_Some (timers s2 !! fresh s)).
  { rewrite E2, E1. simpl. rewrite lookup_insert_eq. eauto. }
  destruct (fire_fields _ _ Ht) as (_ & _ & Htr & _).
  rewrite Htr. rewrite E2, E1. simpl. repeat split.
Qed.

(** What the fulfilment handler of a batch adds to the trace. *)
Lemma onResults_flush results q s :
  trace (onResults (ThenFlush q) results s) =
    trace s ++ resultCalls (fresh s) results q.
Proof.
  simpl. revert s. induction q as [|[u d] q IH]; intros s; simpl.
  - now rewrite app_nil_r.
  - rewrite IH. destruct (isNullish (property u results)); simpl;
      rewrite deliver_eq; simpl; now rewrite <- app_assoc.
Qed.

Lemma calledCallbacks_app evs evs' :
  calledCallbacks (evs ++ evs') = calledCallbacks evs ++ calledCallbacks evs'.
Proof. unfold calledCallbacks. apply omap_app. Qed.

Lemma calledCallbacks_calls p cbs :
  calledCallbacks (map (fun cb => EvCall cb p) cbs) = cbs.
Proof.
  induction cbs as [|cb cbs IH]; [reflexivity|]. simpl.
  change (cb :: calledCallbacks (map (fun cb => EvCall cb p) cbs) = cb :: cbs).
  now rewrite IH.
Qed.

Lemma calledCallbacks_resultCalls a results q :
  calledCallbacks (resultCalls a results q) =
  flat_map (fun '(_, d) => callbacks d) q.
Proof.
  revert a. induction q as [|[u d] q IH]; intros a; [reflexivity|].
  simpl. destruct (isNullish _);
    now rewrite calledCallbacks_app, calledCallbacks_calls, IH.
Qed.

Lemma calledCallbacks_errorCalls e q :
  calledCallbacks (errorCalls e q) = flat_map (fun '(_, d) => callbacks d) q.
Proof.
  unfold errorCalls. induction q as [|[u d] q IH]; [reflexivity|].
  simpl. now rewrite calledCallbacks_app, calledCallbacks_calls, IH.
Qed.

Lemma settle_invokes (s : State) (r : nat) (o : FetchOutcome)
    (req : Request) :
  inflight s !! r = Some req ->
  exists evs,
    trace (settle r o s) = trace s ++ evs /\
    calledCallbacks evs = handlerCallbacks (handlers req) /\
    length evs = length (handlerCallbacks (handlers req)).
Proof.
  intros Hreq. rewrite (settle_found _ _ _ _ Hreq). cbv zeta.
  destruct (postResult (fresh s) req o) as [results|e].
  - set (s1 := addNodes results _).
    assert (Htr : trace s1 = trace s)
      by (unfold s1; now rewrite (proj1 (proj2 (proj2 (proj2
            (addNodes_frame _ _)))))).
    destruct (handlers req) as [u cb|q|].
    + simpl. destruct (truthy _); simpl; rewrite Htr; eauto.
    + rewrite onResults_flush, Htr. eexists. split; [reflexivity|].
      unfold handlerCallbacks.
      rewrite <- (calledCallbacks_resultCalls (fresh s1) results q).
      split; [reflexivity|].
      generalize (fresh s1). clear. intros a. revert a.
      induction q as [|[u d] q IH]; intros a; [reflexivity|].
      simpl. destruct (isNullish _); simpl;
        rewrite calledCallbacks_app, !length_app, calledCallbacks_calls,
          length_map; now rewrite IH.
    + exists []. simpl. now rewrite Htr, app_nil_r.
  - destruct (handlers req) as [u cb|q|].
    + simpl. eauto.
    + rewrite onError_flush. simpl. eexists. split; [reflexivity|].
      unfold handlerCallbacks. rewrite calledCallbacks_errorCalls. split; [reflexivity|].
      unfold errorCalls. clear. induction q as [|[u d] q IH]; [reflexivity|].
      simpl. rewrite !length_app, length_map. now rewrite IH.
    + exists []. simpl. now rewrite app_nil_r.
Qed.

(** X4. Whatever the outcome, settling a request keeps the trace so far
    and appends one event per callback its handlers hold: each of them is
    invoked exactly once, in the order held, and nothing else is recorded. *)
Theorem settle_calls_each_once (s : State) (r : nat) (o : FetchOutcome)
    (req : Request) :
  inflight s !! r = Some req ->
  take (length (trace s)) (trace (settle r o s)) = trace s /\
  calledCallbacks (drop (length (trace s)) (trace (settle r o s))) =
    handlerCallbacks (handlers req) /\
  length (trace (settle r o s)) =
    (length (trace s) + length (handlerCallbacks (handlers req)))%nat.
Proof.
  intros Hreq.
  destruct (settle_invokes s r o req Hreq) as (evs & -> & Hc & Hl).
  split; [|split].
  - now rewrite take_app_length.
  - now rewrite drop_app_length.
  - now rewrite length_app, Hl.
Qed.

(** X5. When the request of a batch succeeds, the results are merged into
    the cache and the queue is served entry by entry: all callbacks of a
    URI receive one payload, the node [{ uri, value }] when the response
    gives the URI a value that is not [null], and otherwise a missing-URI
    error of that URI, a new object for each such URI. *)
Theorem flush_success_per_uri (s : State) (t : nat) (o : FetchOutcome)
    (results : list (string * Value)) :
  is_Some (timers s !! t) ->
  postResult (fresh (fire t s)) (flushRequest s) o = inl results ->
  trace (settle (fresh s) o (fire t s)) =
    trace (fire t s) ++
    resultCalls (fresh (fire t s)) results (queue (_batch s)) /\
  forall k,
    _nodes (settle (fresh s) o (fire t s)) !! k =
    match lastAdded s k results with
    | Some v => Some {| uri := k; value := v |}
    | None => _nodes s !! k
    end.
Proof.
  intros Ht Hr.
  destruct (fire_fields t s Ht) as (_ & _ & _ & Hin & Hf & Ho & Hn).
  rewrite (settle_found _ _ _ (flushRequest s))
    by (rewrite Hin; apply lookup_insert_eq).
  cbv zeta. rewrite Hr.
  change (handlers (flushRequest s)) with (ThenFlush (queue (_batch s))).
  set (s1 := set_inflight _ (fire t s)).
  destruct (addNodes_frame results s1) as (_ & _ & _ & Htr & Hfr & _).
  split.
  - now rewrite onResults_flush, Htr, Hfr.
  - intros k.
    rewrite (proj1 (proj2 (proj2 (proj2 (onResults_frame _ _ _))))).
    rewrite addNodes_lookup.
    rewrite (lastAdded_options s1 s k results) by exact Ho.
    unfold s1. simpl. now rewrite Hn.
Qed.

(** *** What each action does to the cache *)

Lemma nodes_getBatched node callback s :
  _nodes (getBatched node callback s) = _nodes s.
Proof.
  unfold getBatched, get.
  destruct (batchInterval (options s) <=? 0);
    destruct (_nodes s !! _); try reflexivity.
  simpl. now destruct (timeoutId (_batch s)).
Qed.

Lemma nodes_reportRenderedNode node s :
  _nodes (reportRenderedNode node s) = _nodes s.
Proof.
  unfold reportRenderedNode. destruct (mjoin _); [|reflexivity].
  now destruct (bool_decide _).
Qed.

Lemma nodes_reportRemovedNode u s :
  _nodes (reportRemovedNode u s) = _nodes s.
Proof.
  unfold reportRemovedNode. destruct (mjoin _); [|reflexivity].
  simpl. now destruct (_ <=? 0).
Qed.

Lemma nodes_fire t s : _nodes (fire t s) = _nodes s.
Proof. unfold fire. now destruct (timers s !! t). Qed.

Lemma nodes_get node callback s : _nodes (get node callback s) = _nodes s.
Proof. unfold get. now destruct (_nodes s !! _). Qed.

Lemma nodes_settle r o s k :
  _nodes (settle r o s) !! k =
  match inflight s !! r with
  | Some req =>
      match postResult (fresh s) req o with
      | inl results =>
          match lastAdded s k results with
          | Some v => Some {| uri := k; value := v |}
          | None => _nodes s !! k
          end
      | inr _ => _nodes s !! k
      end
  | None => _nodes s !! k
  end.
Proof.
  destruct (inflight s !! r) as [req|] eqn:Hreq.
  - rewrite (settle_found _ _ _ _ Hreq). cbv zeta.
    destruct (postResult (fresh s) req o) as [results|e].
    + rewrite (proj1 (proj2 (proj2 (proj2 (onResults_frame _ _ _))))).
      rewrite addNodes_lookup. now rewrite (lastAdded_options _ s).
    + now rewrite (proj1 (proj2 (proj2 (proj2 (onError_frame _ _ _))))).
  - unfold settle. now rewrite Hreq.
Qed.

Lemma nodes_run (s : State) (a : Action) (k : string) :
  _nodes (run s a) !! k =
  match a with
  | ResetNodes => None
  | AddNodes nodes =>
      match lastAdded s k nodes with
      | Some v => Some {| uri := k; value := v |}
      | None => _nodes s !! k
      end
  | RequestSettles r o =>
      match inflight s !! r with
      | Some req =>
          match postResult (fresh s) req o with
          | inl results =>
              match lastAdded s k results with
              | Some v => Some {| uri := k; value := v |}
              | None => _nodes s !! k
              end
          | inr _ => _nodes s !! k
          end
      | None => _nodes s !! k
      end
  | _ => _nodes s !! k
  end.
Proof.
  destruct a; simpl; try reflexivity.
  - now rewrite nodes_get.
  - now rewrite nodes_getBatched.
  - apply addNodes_lookup.
  - now rewrite nodes_reportRenderedNode.
  - now rewrite nodes_reportRemovedNode.
  - rewrite (proj1 (resetNodes_fields s)). apply lookup_empty.
  - now rewrite nodes_fire.
  - apply nodes_settle.
Qed.

(** X6. Only [resetNodes] evicts from the cache: any other action keeps
    every key that is cached.  And a key enters the cache only through
    [addNodes] or through a request that settles. *)
Theorem cache_grows_by_loads_only (s : State) (a : Action) (k : string) :
  (a <> ResetNodes ->
   is_Some (_nodes s !! k) -> is_Some (_nodes (run s a) !! k)) /\
  (_nodes s !! k = None ->
   is_Some (_nodes (run s a) !! k) ->
   (exists nodes, a = AddNodes nodes) \/
   (exists r o, a = RequestSettles r o)).
Proof.
  rewrite nodes_run. split.
  - intros Ha Hk. destruct a; try exact Hk; try congruence.
    + destruct (lastAdded s k nodes); eauto.
    + destruct (inflight s !! r); [|exact Hk].
      destruct (postResult _ _ _); [|exact Hk].
      destruct (lastAdded s k l); eauto.
  - intros Hnone Hk. rewrite Hnone in Hk.
    destruct a; try (now apply is_Some_None in Hk); eauto.
Qed.

Lemma cacheKeyed_run s a : cacheKeyed s -> cacheKeyed (run s a).
Proof.
  intros H k n. rewrite nodes_run.
  destruct a; try apply H; try discriminate.
  - destruct (lastAdded s k nodes); [now intros [= <-]|apply H].
  - destruct (inflight s !! r); [|apply H].
    destruct (postResult _ _ _); [|apply H].
    destruct (lastAdded s k l); [now intros [= <-]|apply H].
Qed.

Lemma cacheKeyed_runAll env acts :
  cacheKeyed (runAll acts (constructor env)).
Proof.
  unfold runAll.
  assert (G : forall s, cacheKeyed s -> cacheKeyed (foldl run s acts)).
  { induction acts as [|a acts IH]; intros s H; simpl; [assumption|].
    apply IH. now apply cacheKeyed_run. }
  apply G. intros k n. destruct env as [|[nodes|]]; simpl;
    rewrite lookup_empty; discriminate.
Qed.

(** X7. In every state a client can reach, a [get] or [getBatched] for a
    cached node invokes the callback at once with a node whose URI is the
    normalized URI asked for; no request is issued, nothing is queued and no
    timer is set, whatever the batch interval. *)
Theorem cached_node_served_at_once (env : Surroundings)
    (acts : list Action) (node : Node) (callback : Callback)
    (existing : Node) :
  let s := runAll acts (constructor env) in
  let k := uri (_normalizeNode s node) in
  _nodes s !! k = Some existing ->
  uri existing = k /\
  get node callback s = call (PNode existing) s callback /\
  getBatched node callback s = call (PNode existing) s callback.
Proof.
  intros s k Hk. split; [|split].
  - exact (cacheKeyed_runAll env acts k existing Hk).
  - now apply get_cached.
  - unfold getBatched. fold k. rewrite Hk.
    rewrite (get_cached node callback s existing Hk).
    now destruct (_ <=? 0).
Qed.

(** *** The shape of the batch queue *)

Lemma sameString_eq a b : sameString a b = true -> a = b.
Proof. unfold sameString. apply bool_decide_eq_true. Qed.

Lemma jsmap_get_notin {V} k (m : list (string * V)) :
  jsmap_get sameString k m = None -> k ∉ map fst m.
Proof.
  induction m as [|[k' v] m IH]; simpl.
  - intros _ H. now apply not_elem_of_nil in H.
  - destruct (sameString k k') eqn:E; [discriminate|].
    intros H Hin. apply elem_of_cons in Hin as [->|Hin].
    + now rewrite sameString_refl in E.
    + now apply IH.
Qed.

Lemma jsmap_set_keys {V} k (v : V) m :
  map fst (jsmap_set sameString k v m) =
  match jsmap_get sameString k m with
  | Some _ => map fst m
  | None => map fst m ++ [k]
  end.
Proof.
  induction m as [|[k' v'] m IH]; [reflexivity|]. simpl.
  destruct (sameString k k'); [reflexivity|].
  simpl. rewrite IH. now destruct (jsmap_get sameString k m).
Qed.

Lemma jsmap_set_Forall {V} (P : string * V -> Prop) k v m :
  Forall P m -> P (k, v) -> Forall P (jsmap_set sameString k v m).
Proof.
  intros Hm Hk. induction Hm as [|[k' v'] m Hx Hm IH]; simpl.
  - now constructor.
  - destruct (sameString k k') eqn:E.
    + apply sameString_eq in E as <-. now constructor.
    + now constructor.
Qed.

Lemma jsmap_get_Forall {V} (P : string * V -> Prop) k m d :
  Forall P m -> jsmap_get sameString k m = Some d -> P (k, d).
Proof.
  intros Hm. induction Hm as [|[k' v'] m Hx Hm IH]; simpl; [discriminate|].
  destruct (sameString k k') eqn:E; [|assumption].
  apply sameString_eq in E as <-. now intros [= <-].
Qed.

Lemma jsmap_set_not_nil {V} k (v : V) m : jsmap_set sameString k v m <> [].
Proof. destruct m as [|[k' v'] m]; simpl; [|destruct (sameString k k')]; discriminate. Qed.

Lemma batch_reportRenderedNode node s :
  _batch (reportRenderedNode node s) = _batch s.
Proof.
  unfold reportRenderedNode. destruct (mjoin _); [|reflexivity].
  now destruct (bool_decide _).
Qed.

Lemma batch_reportRemovedNode u s :
  _batch (reportRemovedNode u s) = _batch s.
Proof.
  unfold reportRemovedNode. destruct (mjoin _); [|reflexivity].
  simpl. now destruct (_ <=? 0).
Qed.

Lemma batchWellFormed_batch s s' :
  _batch s' = _batch s -> batchWellFormed s -> batchWellFormed s'.
Proof. unfold batchWellFormed. now intros ->. Qed.

Lemma batchWellFormed_empty s :
  _batch s = makeEmptyBatch -> batchWellFormed s.
Proof.
  unfold batchWellFormed. intros ->. simpl.
  split; [constructor|]. split; [tauto|constructor].
Qed.

Lemma batchWellFormed_getBatched node callback s :
  batchWellFormed s -> batchWellFormed (getBatched node callback s).
Proof.
  intros H.
  destruct (Z.leb_spec (batchInterval (options s)) 0) as [Hle|Hpos].
  { unfold getBatched.
    destruct (Z.leb_spec (batchInterval (options s)) 0); [|lia].
    eapply batchWellFormed_batch; [|exact H].
    now destruct (core_eq _ _ (core_get node callback s)) as (_ & _ & ? & _). }
  destruct (_nodes s !! uri (_normalizeNode s node)) as [existing|] eqn:Hk.
  { unfold getBatched.
    destruct (Z.leb_spec (batchInterval (options s)) 0); [lia|].
    rewrite Hk. exact H. }
  rewrite (getBatched_enqueue node callback s Hpos Hk). cbv zeta.
  destruct H as (Hnd & Hiff & Hall).
  set (n := _normalizeNode s node) in *.
  set (previous := default _ _).
  set (entry := {| q_node := q_node previous;
                   callbacks := callbacks previous ++ [callback] |}).
  assert (Hq : NoDup (map fst (jsmap_set sameString (uri n) entry
                                 (queue (_batch s)))) /\
               Forall (fun ud => uri (q_node (snd ud)) = fst ud /\
                                 callbacks (snd ud) <> [])
                 (jsmap_set sameString (uri n) entry (queue (_batch s)))).
  { split.
    - rewrite jsmap_set_keys.
      destruct (jsmap_get sameString (uri n) (queue (_batch s))) eqn:Hg;
        [assumption|].
      apply NoDup_app. split; [assumption|]. split; [|apply NoDup_singleton].
      intros x Hx Hx'. apply list_elem_of_singleton in Hx' as ->.
      now apply (jsmap_get_notin _ _ Hg).
    - apply jsmap_set_Forall; [assumption|]. simpl. split.
      + unfold previous.
        destruct (jsmap_get sameString (uri n) (queue (_batch s))) as [d|]
          eqn:Hg; [|reflexivity].
        simpl. exact (proj1 (jsmap_get_Forall _ _ _ _ Hall Hg)).
      + intros E. now apply app_eq_nil in E as [_ [=]]. }
  destruct Hq as (Hnd' & Hall').
  destruct (timeoutId (_batch s)) as [t|]; unfold batchWellFormed; simpl;
    (split; [assumption|split; [|assumption]]);
    (split; [discriminate|intros E; now apply jsmap_set_not_nil in E]).
Qed.

Lemma batchWellFormed_run s a : batchWellFormed s -> batchWellFormed (run s a).
Proof.
  intros H. destruct a; simpl; try exact H.
  - eapply batchWellFormed_batch; [|exact H].
    now destruct (core_eq _ _ (core_get node callback s)) as (_ & _ & ? & _).
  - now apply batchWellFormed_getBatched.
  - eapply batchWellFormed_batch; [|exact H].
    now destruct (core_eq _ _ (core_addNodes nodes s)) as (_ & _ & ? & _).
  - eapply batchWellFormed_batch; [apply batch_reportRenderedNode|exact H].
  - eapply batchWellFormed_batch; [apply batch_reportRemovedNode|exact H].
  - apply batchWellFormed_empty. apply resetNodes_fields.
  - unfold fire. destruct (timers s !! t); [|exact H].
    now apply batchWellFormed_empty.
  - eapply batchWellFormed_batch; [|exact H].
    now destruct (core_eq _ _ (core_settle r o s)) as (_ & _ & ? & _).
Qed.

(** X8. In every state a client can reach, the batch queue has one entry
    per URI, each filed under the URI of its node and holding at least one
    callback, and a flush timer is set exactly when the queue is not empty:
    no queued callback waits without a timer, and no flush is sent for an
    empty queue. *)
Theorem reachable_batch_well_formed (env : Surroundings)
    (acts : list Action) :
  batchWellFormed (runAll acts (constructor env)).
Proof.
  unfold runAll.
  assert (G : forall s, batchWellFormed s ->
                        batchWellFormed (foldl run s acts)).
  { induction acts as [|a acts IH]; intros s H; simpl; [assumption|].
    apply IH. now apply batchWellFormed_run. }
  apply G, batchWellFormed_empty. now destruct env as [|[nodes|]].
Qed.

(** X9. In every state a client can reach at most one timer is pending, and
    it is the one recorded in the batch: a second [getBatched] never starts a
    second timer, and a timer that fired or was cleared is forgotten. *)
Theorem reachable_single_timer (env : Surroundings) (acts : list Action)
    (t : nat) :
  let s := runAll acts (constructor env) in
  is_Some (timers s !! t) <-> timeoutId (_batch s) = Some t.
Proof.
  intros s. destruct (invariant_runAll env acts) as (_ & Ht & _).
  fold s in Ht. unfold timerOfBatch in Ht.
  rewrite <- elem_of_dom, Ht.
  destruct (timeoutId (_batch s)) as [t'|].
  - rewrite elem_of_singleton. split; [now intros ->|now intros [= ->]].
  - split; [intros H; now apply not_elem_of_empty in H|discriminate].
Qed.

(** *** The externally visible map *)

Lemma visibleNodes_mirrored s :
  mirrored s -> visibleNodes s = default ∅ (heap s !! _DJEDI_NODES s).
Proof.
  intros [Hw _]. unfold visibleNodes.
  destruct (window s) as [w|]; [|reflexivity]. now rewrite Hw.
Qed.

(** X10. In every state a client can reach, [reportRenderedNode] writes the
    node's default value into the externally visible map under the
    version-stripped URI, replacing what an earlier rendering published
    there, and logs no warning; [reportRemovedNode] changes nothing at
    all. *)
Theorem rendering_publishes_removal_keeps (env : Surroundings)
    (acts : list Action) (node : Node) (u : string) :
  let s := runAll acts (constructor env) in
  let n := _normalizeNode s node in
  visibleNodes (reportRenderedNode node s) =
    <[_djediNodesUri s (uri n) := value n]> (visibleNodes s) /\
  trace (reportRenderedNode node s) = trace s /\
  reportRemovedNode u s = s.
Proof.
  intros s n.
  destruct (invariant_runAll env acts) as (Hr & _ & Hm). fold s in Hr, Hm.
  split; [|split].
  - rewrite (visibleNodes_mirrored s Hm).
    rewrite (reportRenderedNode_untracked node s Hr). fold n.
    destruct Hm as [Hw [m Hh]].
    unfold visibleNodes, setProperty. simpl.
    assert (Ha : match window s with
                 | Some (Some a) => a
                 | _ => _DJEDI_NODES s
                 end = _DJEDI_NODES s).
    { destruct (window s) as [w|]; [now rewrite Hw|reflexivity]. }
    rewrite Ha, lookup_alter_eq, Hh. reflexivity.
  - now rewrite (reportRenderedNode_untracked node s Hr).
  - now apply reportRemovedNode_noop.
Qed.

(** X11. A new client shows the outside what [window.DJEDI_NODES] already
    held when there was one, and an empty map otherwise; [resetNodes]
    always leaves an empty map to see, in a new object. *)
Theorem constructor_adopts_reset_discards (env : Surroundings) :
  visibleNodes (constructor env) =
    match env with
    | Window (Some nodes) => nodes
    | _ => ∅
    end /\
  visibleNodes (resetNodes (constructor env)) = ∅ /\
  _DJEDI_NODES (resetNodes (constructor env)) <> _DJEDI_NODES (constructor env).
Proof.
  split; [|split].
  - destruct env as [|[nodes|]]; unfold visibleNodes; simpl;
      rewrite ?lookup_insert_eq; reflexivity.
  - apply resetNodes_fields.
  - destruct env as [|[nodes|]]; simpl; lia.
Qed.

(** *** Requests and their outcomes *)

(** X12. The promise of [_post] is fulfilled exactly when a response comes
    back with a status from 200 up to but not including 400 and a body that
    parses as JSON; it is fulfilled with the parsed body. *)
Theorem post_fulfilled_iff (a : nat) (req : Request) (o : FetchOutcome)
    (results : list (string * Value)) :
  postResult a req o = inl results <->
  exists response,
    o = Responded response /\
    200 <= resp_status response < 400 /\
    resp_json response = Some results.
Proof.
  unfold postResult. split.
  - destruct o as [|response]; [discriminate|].
    destruct (Z.leb_spec 200 (resp_status response));
      destruct (Z.ltb_spec (resp_status response) 400); simpl;
      try discriminate.
    destruct (resp_json response) as [res|] eqn:E; [|discriminate].
    intros [= <-]. exists response. repeat split; try assumption.
  - intros (response & -> & [Hlo Hhi] & ->).
    destruct (Z.leb_spec 200 (resp_status response)); [|lia].
    destruct (Z.ltb_spec (resp_status response) 400); [|lia].
    reflexivity.
Qed.


(** X14. When the request of [get] fails, the callback is invoked once,
    with the error of [_post], and the cache stays as it was. *)
Theorem get_rejected (s : State) (node : Node) (callback : Callback)
    (o : FetchOutcome) (e : Error) :
  let n := _normalizeNode s node in
  let s1 := get node callback s in
  _nodes s !! uri n = None ->
  postResult (fresh s1)
    {| apiUrl := "/djedi/load_many"; data := DataNodes [n];
       handlers := ThenGet (uri n) callback |} o = inr e ->
  trace (settle (fresh s) o s1) = trace s1 ++ [EvCall callback (PError e)] /\
  _nodes (settle (fresh s) o s1) = _nodes s.
Proof.
  intros n s1 Hnone He.
  destruct (get_uncached_request s node callback Hnone) as (_ & Hin & Hf).
  fold n s1 in Hin, Hf.
  rewrite (settle_found _ _ _ _ Hin). cbv zeta. rewrite He.
  split; [reflexivity|]. simpl. unfold s1. now rewrite nodes_get.
Qed.

(** X15. [get] does not coalesce: two calls for the same uncached node,
    made before any response, issue two requests with the same body. *)
Theorem get_twice_two_requests (s : State) (node : Node) (c1 c2 : Callback) :
  let n := _normalizeNode s node in
  let url := baseUrl (options s) +:+ "/djedi/load_many" in
  _nodes s !! uri n = None ->
  trace (get node c2 (get node c1 s)) =
    trace s ++
    [EvFetch (fresh s) url (JArray [json_of_node n]);
     EvFetch (S (fresh s)) url (JArray [json_of_node n])].
Proof.
  intros n url Hnone.
  destruct (get_uncached_request s node c1 Hnone) as (Htr & _ & Hf).
  set (s1 := get node c1 s) in *.
  assert (Ho : options s1 = options s).
  { unfold s1. now rewrite get_uncached by assumption. }
  assert (Hn : _normalizeNode s1 node = n) by now apply normalizeNode_options.
  assert (Hnone1 : _nodes s1 !! uri (_normalizeNode s1 node) = None).
  { rewrite Hn. unfold s1. now rewrite nodes_get. }
  destruct (get_uncached_request s1 node c2 Hnone1) as (Htr2 & _).
  rewrite Htr2, Htr, Hn, Hf, Ho, <- app_assoc. reflexivity.
Qed.

(** X16. With a batch interval of zero or less, [getBatched] for an
    uncached node issues its request at once, as [get] does, and neither
    queues the node nor sets a timer. *)
Theorem batching_disabled (s : State) (node : Node) (callback : Callback) :
  let n := _normalizeNode s node in
  batchInterval (options s) <= 0 ->
  _nodes s !! uri n = None ->
  getBatched node callback s = get node callback s /\
  trace (getBatched node callback s) =
    trace s ++
    [EvFetch (fresh s) (baseUrl (options s) +:+ "/djedi/load_many")
       (JArray [json_of_node n])] /\
  _batch (getBatched node callback s) = _batch s /\
  timers (getBatched node callback s) = timers s.
Proof.
  intros n Hle Hnone.
  assert (E : getBatched node callback s = get node callback s).
  { unfold getBatched.
    now destruct (Z.leb_spec (batchInterval (options s)) 0); [|lia]. }
  rewrite E. split; [reflexivity|].
  destruct (get_uncached_request s node callback Hnone) as (Htr & _).
  split; [exact Htr|].
  now destruct (core_eq _ _ (core_get node callback s))
    as (_ & _ & ? & _ & _ & _ & ?).
Qed.

(** X17. [loadByPrefix] posts the prefixes as an array to the
    load_by_prefix endpoint; when the response is in, its pairs are filed
    in the cache and no callback is invoked. *)
Theorem loadByPrefix_hydrates (s : State) (prefixes : list string)
    (response : Response) (results : list (string * Value)) :
  let s2 := settle (fresh s) (Responded response) (loadByPrefix prefixes s) in
  200 <= resp_status response < 400 ->
  resp_json response = Some results ->
  trace s2 =
    trace s ++
    [EvFetch (fresh s) (baseUrl (options s) +:+ "/djedi/load_by_prefix")
       (JArray (map JString prefixes))] /\
  forall k,
    _nodes s2 !! k =
    match lastAdded s k results with
    | Some v => Some {| uri := k; value := v |}
    | None => _nodes s !! k
    end.
Proof.
  intros s2 Hst Hjson.
  assert (Hp : forall a req, postResult a req (Responded response)
                             = inl results).
  { intros a req. unfold postResult. rewrite Hjson.
    destruct (Z.leb_spec 200 (resp_status response)); [|lia].
    now destruct (Z.ltb_spec (resp_status response) 400); [|lia]. }
  assert (Hin : inflight (loadByPrefix prefixes s) !! fresh s =
                Some {| apiUrl := "/djedi/load_by_prefix";
                        data := DataPrefixes prefixes;
                        handlers := ThenCaller |}).
  { unfold loadByPrefix. rewrite inflight_post. apply lookup_insert_eq. }
  split.
  - unfold s2. rewrite (settle_found _ _ _ _ Hin). cbv zeta. rewrite Hp.
    simpl. now rewrite (proj1 (proj2 (proj2 (proj2 (addNodes_frame _ _))))).
  - intros k. unfold s2. rewrite nodes_settle, Hin, Hp.
    now rewrite (lastAdded_options _ s).
Qed.

(** X18. After [resetNodes], in every state a client can reach, no timer
    is left to fire: the callbacks that were waiting in the queue are
    dropped, and no flush will ever serve them. *)
Theorem reset_drops_queued_callbacks (env : Surroundings)
    (acts : list Action) (t : nat) :
  let s := resetNodes (runAll acts (constructor env)) in
  fire t s = s /\ queue (_batch s) = [] /\ timers s = ∅.
Proof.
  intros s.
  destruct (invariant_runAll env acts) as (_ & Ht & _).
  destruct (resetNodes_fields (runAll acts (constructor env)))
    as (_ & _ & Hb & _ & _ & _ & _ & Htm).
  fold s in Hb, Htm.
  assert (E : timers s = ∅).
  { apply dom_empty_iff_L. rewrite Htm. unfold timerOfBatch in Ht.
    destruct (timeoutId (_batch (runAll acts (constructor env))));
      [|assumption].
    rewrite dom_delete_L, Ht. apply difference_diag_L. }
  split; [|split; [now rewrite Hb|exact E]].
  unfold fire. now rewrite E, lookup_empty.
Qed.

(** X19. The body of a batch request names the queued URIs whose node has
    a default value, in queue order, and no other: [JSON.stringify] leaves
    out every URI queued without one. *)
Theorem batch_body_keys (s : State) (t : nat) :
  is_Some (timers s !! t) ->
  exists body,
    trace (fire t s) =
      trace s ++
      [EvFetch (fresh s) (baseUrl (options s) +:+ "/djedi/load_many") body] /\
    json_keys body =
      map fst (filter (fun kd => value (q_node (snd kd)) ≠ VUndefined)
                 (queue (_batch s))).
Proof.
  intros Ht. destruct (fire_fields t s Ht) as (_ & _ & Htr & _).
  eexists. split; [exact Htr|]. apply flush_body_keys.
Qed.

(** X20. [resetNodes] does not cancel a request in flight: when its
    response comes, the callbacks its handlers hold are still invoked, each
    once, and a successful response files its pairs in the cache that was
    just emptied. *)
Theorem late_response_after_reset (s : State) (r : nat) (o : FetchOutcome)
    (req : Request) :
  let s1 := resetNodes s in
  inflight s !! r = Some req ->
  inflight s1 !! r = Some req /\
  (exists evs,
     trace (settle r o s1) = trace s ++ evs /\
     calledCallbacks evs = handlerCallbacks (handlers req)) /\
  forall results k,
    postResult (fresh s1) req o = inl results ->
    _nodes (settle r o s1) !! k =
    (fun v => {| uri := k; value := v |}) <$> lastAdded s k results.
Proof.
  intros s1 Hreq.
  destruct (resetNodes_fields s) as (Hn & _ & _ & _ & Ho & Hi & Htr & _).
  fold s1 in Hn, Ho, Hi, Htr.
  assert (Hreq1 : inflight s1 !! r = Some req) by now rewrite Hi.
  split; [exact Hreq1|]. split.
  - destruct (settle_invokes s1 r o req Hreq1) as (evs & He & Hc & _).
    exists evs. now rewrite He, Htr.
  - intros results k Hp. rewrite nodes_settle, Hreq1, Hp.
    rewrite (lastAdded_options s1 s k results Ho), Hn, lookup_empty.
    now destruct (lastAdded s k results).
Qed.

End More.

(** * The client on a concrete page *)

Section Examples.
#[local] Existing Instance specUri.

(** C1. Two [getBatched] calls for distinct uncached URIs in one window.
    One request is issued when the timer fires and both callbacks wait on
    it, but its body does not cover both URIs: [footer] has no default
    value, [JSON.stringify] leaves its property out, and the server is
    never asked for it.  Answering what was asked, the response has no
    entry for [footer], whose callback gets the missing-URI error. *)
Theorem batch_body_omits_node_without_default :
  let s2 := getBatched title 8 (getBatched footer 7 page) in
  let s3 := fire 2 s2 in
  footerUri ≠ titleUri /\
  trace s2 = [] /\
  (exists url body,
     trace s3 = [EvFetch 3 url body] /\
     json_keys body = [titleUri] /\
     footerUri ∉ json_keys body) /\
  handlers <$> inflight s3 !! 3%nat =
    Some (ThenFlush
            [(footerUri, {| q_node := mkNode footerUri VUndefined;
                            callbacks := [7%nat] |});
             (titleUri, {| q_node := mkNode titleUri (VStr "Hello");
                           callbacks := [8%nat] |})]) /\
  drop 1 (trace (settle 3 (ok [(titleUri, VStr "Hej")]) s3)) =
    [EvCall 7 (PError (missingUriError 4 footerUri));
     EvCall 8 (PNode (mkNode titleUri (VStr "Hej")))].
Proof.
  cbv zeta. split; [|split; [|split; [|split]]].
  - vm_compute. discriminate.
  - vm_compute. reflexivity.
  - do 2 eexists. split; [vm_compute; reflexivity|].
    split; [vm_compute; reflexivity|].
    vm_compute. intros H. apply list_elem_of_singleton in H. discriminate.
  - vm_compute. reflexivity.
  - vm_compute. reflexivity.
Qed.

(** C2. [title] is rendered twice and removed twice.  After the first
    removal it is still in the externally visible map, but the registry
    holds no count for it; the second removal deletes it from neither the
    registry nor the externally visible map.  [reportRenderedNode] files each
    entry under a new object literal, so no lookup by URI finds it. *)
Theorem second_removal_deletes_nothing :
  let s2 := reportRenderedNode title (reportRenderedNode title page) in
  let s3 := reportRemovedNode "home/title" s2 in
  let s4 := reportRemovedNode "home/title" s3 in
  visibleKeys s3 = [titleKey] /\
  referenceCount s3 "home/title" = None /\
  s4 = s2 /\
  visibleKeys s4 = [titleKey] /\
  _renderedNodes s4 =
    [(KObj 2 {| r_value := VStr "Hello"; numInstances := 1 |}, None);
     (KObj 3 {| r_value := VStr "Hello"; numInstances := 1 |}, None)].
Proof.
  cbv zeta.
  assert (H : onlyObjectKeys
                (_renderedNodes
                   (reportRenderedNode title (reportRenderedNode title page)))
              = true) by (vm_compute; reflexivity).
  rewrite !(reportRemovedNode_noop _ _ H).
  repeat split; vm_compute; reflexivity.
Qed.

(** C3. After one [reportRenderedNode] the externally visible map has the
    key of [title], while no registry entry is filed under a URI; after the
    matching [reportRemovedNode] the key is still there.  The keys of the
    externally visible map are not those of the tracked URIs. *)
Theorem visible_keys_differ_from_registry :
  let s1 := runAll [ReportRenderedNode title] page in
  let s2 :=
    runAll [ReportRenderedNode title; ReportRemovedNode "home/title"] page in
  visibleKeys s1 = [titleKey] /\
  trackedUris s1 = [] /\
  visibleKeys s2 = [titleKey] /\
  trackedUris s2 = [].
Proof. cbv zeta. repeat split; vm_compute; reflexivity. Qed.

(** C4. [get] on an uncached node posts to the load_many endpoint, but the
    body is a one-element array holding the node object, not a mapping from
    the normalized URI to the default value as [_flushBatch] sends. *)
Theorem get_posts_array_of_node :
  trace (get title 7 page) =
    [EvFetch 2 "/djedi/load_many"
       (JArray [JObject [("uri", JString titleUri);
                         ("value", JString "Hello")]])] /\
  trace (fire 2 (getBatched title 7 page)) =
    [EvFetch 3 "/djedi/load_many" (JObject [(titleUri, JString "Hello")])].
Proof. split; vm_compute; reflexivity. Qed.

(** C5, counterexample.  The response maps the requested URI to [null]: it
    does not omit the URI, and the callback receives the missing-URI
    error. *)
Lemma get_null_value_is_missing :
  let results := [(titleUri, VNull)] in
  jsmap_get sameString titleUri results ≠ None /\
  trace (settle 2 (ok results) (get title 7 page)) =
    trace (get title 7 page) ++
    [EvCall 7 (PError (missingUriError 3 titleUri))].
Proof. cbv zeta. split; [vm_compute; discriminate|vm_compute; reflexivity]. Qed.

(** In [get] an empty string counts as missing as well; in a batch it is
    delivered as the node's value. *)
Lemma get_empty_value_is_missing :
  drop 1 (trace (settle 2 (ok [(titleUri, VStr "")]) (get title 7 page))) =
    [EvCall 7 (PError (missingUriError 3 titleUri))] /\
  drop 1 (trace (settle 3 (ok [(titleUri, VStr "")])
                   (fire 2 (getBatched title 7 page)))) =
    [EvCall 7 (PNode (mkNode titleUri (VStr "")))].
Proof. split; vm_compute; reflexivity. Qed.

Lemma get_missing_or_value_witness :
  _nodes page !! titleUri = None /\
  trace (settle 2 (ok []) (get title 7 page)) =
    trace (get title 7 page) ++
    [EvCall 7 (PError (missingUriError 3 titleUri))].
Proof.
  split; [vm_compute; reflexivity|].
  refine (proj1 (proj1
    (get_missing_or_value page title 7
       {| resp_status := 200; statusText := "OK"; resp_text := None;
          resp_json := Some [] |} [] _ _ _) _)).
  - vm_compute. reflexivity.
  - simpl. lia.
  - reflexivity.
  - left. vm_compute. reflexivity.
Defined.

Lemma flush_failure_same_error_witness :
  let s := getBatched title 8 (getBatched footer 7 page) in
  is_Some (timers s !! 2%nat) /\
  drop 1 (trace (settle 3 Rejected (fire 2 s))) =
    [EvCall 7 (PError (mkError 4
       (ApiError "POST" "/djedi/load_many"
          (DataMapping [(footerUri, VUndefined); (titleUri, VStr "Hello")])
          None BadError) (-1) (Some "")));
     EvCall 8 (PError (mkError 4
       (ApiError "POST" "/djedi/load_many"
          (DataMapping [(footerUri, VUndefined); (titleUri, VStr "Hello")])
          None BadError) (-1) (Some "")))].
Proof.
  cbv zeta.
  assert (Ht : is_Some
            (timers (getBatched title 8 (getBatched footer 7 page)) !! 2%nat))
    by (vm_compute; eexists; reflexivity).
  split; [exact Ht|].
  rewrite (flush_failure_same_error _ 2 Rejected _ Ht eq_refl).
  vm_compute. reflexivity.
Defined.

Lemma batch_after_fire_independent_witness :
  let s := getBatched title 7 page in
  let s2 := getBatched footer 8 (fire 2 s) in
  is_Some (timers s !! 2%nat) /\
  _batch s2 =
    {| timeoutId := Some 4%nat;
       queue := [(footerUri, {| q_node := mkNode footerUri VUndefined;
                                callbacks := [8%nat] |})] |} /\
  _batch (settle 3 (ok [(titleUri, VStr "Hej")]) s2) = _batch s2.
Proof.
  cbv zeta.
  assert (Ht : is_Some (timers (getBatched title 7 page) !! 2%nat))
    by (vm_compute; eexists; reflexivity).
  split; [exact Ht|].
  destruct (batch_after_fire_independent (getBatched title 7 page) 2 footer 8
              (ok [(titleUri, VStr "Hej")]) Ht)
    as (_ & _ & Hb & _ & _ & _ & _ & Hs & _).
  - vm_compute. reflexivity.
  - vm_compute. reflexivity.
  - split; [|exact Hs]. rewrite Hb. vm_compute. reflexivity.
Defined.

Lemma resetNodes_clears_witness :
  let s := getBatched title 7 page in
  timerOfBatch s /\
  timers s !! 2%nat = Some 50 /\
  timers (resetNodes s) = ∅.
Proof.
  cbv zeta. split; [vm_compute; reflexivity|].
  split; [vm_compute; reflexivity|].
  apply (proj1 (proj2 (resetNodes_clears (getBatched title 7 page) title 7))).
  vm_compute. reflexivity.
Defined.

Lemma normalize_explicit_identity_witness :
  allExplicit
    (Uri.parseUri "i18n://en-us@home/title.txt#2"
       (separators (uri_options (options page)))) = true /\
  _normalizeUri page "i18n://en-us@home/title.txt#2" =
    "i18n://en-us@home/title.txt#2".
Proof.
  split; [vm_compute; reflexivity|].
  apply normalize_explicit_identity. vm_compute. reflexivity.
Defined.
End Examples.

(** * Further properties on the concrete page *)

Section MoreExamples.
#[local] Existing Instance specUri.

Lemma addNodes_then_get_witness :
  lastAdded page titleUri [("home/title", VStr "Hej")] = Some (VStr "Hej") /\
  trace (get title 7 (addNodes [("home/title", VStr "Hej")] page)) =
    [EvCall 7 (PNode (mkNode titleUri (VStr "Hej")))].
Proof.
  assert (H : lastAdded page titleUri [("home/title", VStr "Hej")]
              = Some (VStr "Hej")) by (vm_compute; reflexivity).
  split; [exact H|].
  exact (proj1 (addNodes_then_get page [("home/title", VStr "Hej")] title 7
                  (VStr "Hej") H)).
Defined.

Lemma get_twice_cached_witness :
  let s2 := settle 2 (ok [(titleUri, VStr "Hej")]) (get title 7 page) in
  _nodes page !! titleUri = None /\
  trace (get title 8 s2) =
    trace s2 ++ [EvCall 8 (PNode (mkNode titleUri (VStr "Hej")))].
Proof.
  cbv zeta. split; [vm_compute; reflexivity|].
  refine (proj1 (get_twice_cached page title 7 8
            {| resp_status := 200; statusText := "OK"; resp_text := None;
               resp_json := Some [(titleUri, VStr "Hej")] |}
            [(titleUri, VStr "Hej")] (VStr "Hej") _ _ _ _)).
  - vm_compute. reflexivity.
  - simpl. lia.
  - reflexivity.
  - vm_compute. reflexivity.
Defined.

Lemma same_uri_shares_entry_witness :
  let s2 := getBatched (mkNode "home/title.txt" (VStr "Other")) 8
              (getBatched title 7 page) in
  uri (_normalizeNode page (mkNode "home/title.txt" (VStr "Other")))
    = titleUri /\
  _batch s2 =
    {| timeoutId := Some 2%nat;
       queue := [(titleUri, {| q_node := mkNode titleUri (VStr "Hello");
                               callbacks := [7%nat; 8%nat] |})] |}.
Proof.
  cbv zeta. split; [vm_compute; reflexivity|].
  refine (proj1 (same_uri_shares_entry page title
                   (mkNode "home/title.txt" (VStr "Other")) 7 8 _ _ _ _)).
  - vm_compute. reflexivity.
  - reflexivity.
  - vm_compute. reflexivity.
  - vm_compute. reflexivity.
Defined.

Lemma settle_calls_each_once_witness :
  let s := fire 2 (getBatched title 8 (getBatched footer 7 page)) in
  is_Some (inflight s !! 3%nat) /\
  calledCallbacks (drop (length (trace s)) (trace (settle 3 Rejected s))) =
    [7%nat; 8%nat].
Proof.
  cbv zeta.
  assert (H : inflight (fire 2 (getBatched title 8
                                  (getBatched footer 7 page))) !! 3%nat
              = Some (flushRequest (getBatched title 8
                                      (getBatched footer 7 page))))
    by (vm_compute; reflexivity).
  split; [rewrite H; eexists; reflexivity|].
  etrans; [exact (proj1 (proj2 (settle_calls_each_once _ 3 Rejected _ H)))|].
  vm_compute. reflexivity.
Defined.

Lemma flush_success_per_uri_witness :
  let s := getBatched title 8 (getBatched footer 7 page) in
  is_Some (timers s !! 2%nat) /\
  drop 1 (trace (settle 3 (ok [(titleUri, VStr "Hej")]) (fire 2 s))) =
    [EvCall 7 (PError (missingUriError 4 footerUri));
     EvCall 8 (PNode (mkNode titleUri (VStr "Hej")))].
Proof.
  cbv zeta.
  assert (Ht : is_Some
            (timers (getBatched title 8 (getBatched footer 7 page)) !! 2%nat))
    by (vm_compute; eexists; reflexivity).
  split; [exact Ht|].
  rewrite (proj1 (flush_success_per_uri _ 2 (ok [(titleUri, VStr "Hej")])
                    [(titleUri, VStr "Hej")] Ht eq_refl)).
  vm_compute. reflexivity.
Defined.

Lemma cached_node_served_at_once_witness :
  let s := runAll [AddNodes [("home/title", VStr "Hej")]] page in
  _nodes s !! titleUri = Some (mkNode titleUri (VStr "Hej")) /\
  getBatched title 7 s = call (PNode (mkNode titleUri (VStr "Hej"))) s 7.
Proof.
  cbv zeta.
  assert (H : _nodes (runAll [AddNodes [("home/title", VStr "Hej")]]
                        (constructor (Window None)))
              !! uri (_normalizeNode
                        (runAll [AddNodes [("home/title", VStr "Hej")]]
                           (constructor (Window None))) title)
              = Some (mkNode titleUri (VStr "Hej")))
    by (vm_compute; reflexivity).
  split; [vm_compute; reflexivity|].
  exact (proj2 (proj2 (cached_node_served_at_once (Window None)
            [AddNodes [("home/title", VStr "Hej")]] title 7 _ H))).
Defined.


Lemma get_rejected_witness :
  let e := mkError 3
             (ApiError "POST" "/djedi/load_many"
                (DataNodes [_normalizeNode page title]) None BadError)
             (-1) (Some "") in
  _nodes page !! uri (_normalizeNode page title) = None /\
  trace (settle (fresh page) Rejected (get title 7 page)) =
    trace (get title 7 page) ++ [EvCall 7 (PError e)].
Proof.
  cbv zeta.
  assert (Hn : _nodes page !! uri (_normalizeNode page title) = None)
    by (vm_compute; reflexivity).
  split; [exact Hn|].
  exact (proj1 (get_rejected page title 7 Rejected _ Hn eq_refl)).
Defined.

Lemma get_twice_two_requests_witness :
  _nodes page !! titleUri = None /\
  length (trace (get title 8 (get title 7 page))) = 2%nat.
Proof.
  split; [vm_compute; reflexivity|].
  assert (Hn : _nodes page !! uri (_normalizeNode page title) = None)
    by (vm_compute; reflexivity).
  rewrite (get_twice_two_requests page title 7 8 Hn). reflexivity.
Defined.

Lemma batching_disabled_witness :
  let s := set_options
             {| baseUrl := ""; batchInterval := 0;
                defaultRender := defaultRender makeDefaultOptions;
                uri_options := uri_options makeDefaultOptions |} page in
  batchInterval (options s) <= 0 /\
  getBatched title 7 s = get title 7 s.
Proof.
  cbv zeta. split; [simpl; lia|].
  refine (proj1 (batching_disabled _ title 7 _ _)).
  - simpl. lia.
  - vm_compute. reflexivity.
Defined.

Lemma loadByPrefix_hydrates_witness :
  let s2 := settle (fresh page) (ok [("home/title", VStr "Hej")])
              (loadByPrefix ["home"] page) in
  trace s2 = [EvFetch 2 "/djedi/load_by_prefix" (JArray [JString "home"])] /\
  _nodes s2 !! titleUri = Some (mkNode titleUri (VStr "Hej")).
Proof.
  cbv zeta.
  destruct (loadByPrefix_hydrates page ["home"]
              {| resp_status := 200; statusText := "OK"; resp_text := None;
                 resp_json := Some [("home/title", VStr "Hej")] |}
              [("home/title", VStr "Hej")]) as (Htr & Hk).
  - simpl. lia.
  - reflexivity.
  - split.
    + etrans; [exact Htr|]. vm_compute. reflexivity.
    + etrans; [exact (Hk titleUri)|]. vm_compute. reflexivity.
Defined.

Lemma batch_body_keys_witness :
  let s := getBatched title 8 (getBatched footer 7 page) in
  is_Some (timers s !! 2%nat) /\
  exists body,
    trace (fire 2 s) = [EvFetch 3 "/djedi/load_many" body] /\
    json_keys body = [titleUri].
Proof.
  cbv zeta.
  assert (Ht : is_Some
            (timers (getBatched title 8 (getBatched footer 7 page)) !! 2%nat))
    by (vm_compute; eexists; reflexivity).
  split; [exact Ht|].
  destruct (batch_body_keys _ 2 Ht) as (body & Htr & Hk).
  exists body. split.
  - etrans; [exact Htr|]. vm_compute. reflexivity.
  - etrans; [exact Hk|]. vm_compute. reflexivity.
Defined.

Lemma late_response_after_reset_witness :
  let s := get title 7 page in
  is_Some (inflight s !! 2%nat) /\
  _nodes (settle 2 (ok [(titleUri, VStr "Hej")]) (resetNodes s)) !! titleUri
    = Some (mkNode titleUri (VStr "Hej")).
Proof.
  cbv zeta.
  assert (H : inflight (get title 7 page) !! 2%nat =
              Some {| apiUrl := "/djedi/load_many";
                      data := DataNodes [_normalizeNode page title];
                      handlers := ThenGet titleUri 7 |})
    by (vm_compute; reflexivity).
  split; [rewrite H; eexists; reflexivity|].
  etrans;
    [exact (proj2 (proj2 (late_response_after_reset (get title 7 page) 2
                            (ok [(titleUri, VStr "Hej")]) _ H))
              [(titleUri, VStr "Hej")] titleUri eq_refl)|].
  vm_compute. reflexivity.
Defined.

End MoreExamples.
